(** * crawl-data: the crawler of [web_scraper.py], embedded and verified

    The development follows the class [WebCrawler]: its configuration
    dictionary, the crawler object (visited set, pending queue, depth
    counter, collected records), the page fetch, link extraction, the
    depth-by-depth crawl loop and the CSV export.

    Conventions.
    - A Python [str] is a [string] (a sequence of 8-bit characters);
      [str.lower] is lower-casing of the ASCII letters.
    - A Python [set] of URLs is a [gset string]; a Python [list] is a [list].
    - [config.get(key, default)] is an optional record field read through
      an accessor that supplies the default of the source.
    - The outside world (HTTP server, HTML parser, URL library, random
      generator, clock, file system) is a record of oracles [Env]; the
      crawler threads a counter [tick] that numbers its interactions, so
      the world may answer differently each time it is asked.
    - Observable effects (requests, sleeps, additions to the visited set
      and to the queue) are appended to a chronological [trace]. *)

From Stdlib Require Import ZArith QArith Ascii.
From stdpp Require Import base tactics option list gmap strings sets.

Local Open Scope string_scope.
Local Open Scope list_scope.
Local Open Scope Z_scope.

(** ** Python strings *)

Module PyStr.

(** [s.endswith(suffix)]: [s] itself or one of its tails is [suffix]. *)
Fixpoint endswith (s suffix : string) : bool :=
  String.eqb s suffix ||
  match s with
  | EmptyString => false
  | String _ s' => endswith s' suffix
  end.

(** [c.lower()] for one character: A..Z are shifted to a..z. *)
Definition lower_ascii (c : ascii) : ascii :=
  let n := nat_of_ascii c in
  if ((65 <=? n) && (n <=? 90))%nat then ascii_of_nat (n + 32) else c.

(** [s.lower()]. *)
Fixpoint lower (s : string) : string :=
  match s with
  | EmptyString => EmptyString
  | String c s' => String (lower_ascii c) (lower s')
  end.

(** [sep.join(parts)] for a list of strings. *)
Fixpoint join (sep : string) (parts : list string) : string :=
  match parts with
  | [] => ""
  | [x] => x
  | x :: rest => x +:+ sep +:+ join sep rest
  end.

(** The characters of a string as one-character strings: what iterating
    over a [str] yields. *)
Fixpoint chars (s : string) : list string :=
  match s with
  | EmptyString => []
  | String c s' => String c "" :: chars s'
  end.

(** [s.split(sep)] for a non-empty [sep]: the text is scanned from the left,
    every occurrence of [sep] found closes the current piece and is skipped
    whole ([skip] counts the characters of it still to pass over).
    [piece] is the text of the piece being read. *)
Fixpoint split_from (sep : string) (skip : nat) (piece : string) (s : string)
  : list string :=
  match s with
  | EmptyString => [piece]
  | String c s' =>
      match skip with
      | S k => split_from sep k piece s'
      | O =>
          if String.prefix sep s
          then piece :: split_from sep (String.length sep - 1) "" s'
          else split_from sep 0 (piece +:+ String c "") s'
      end
  end.

Definition split (sep s : string) : list string := split_from sep 0 "" s.

(** [sep in s]: some suffix of [s] starts with [sep]. *)
Fixpoint contains (sep s : string) : bool :=
  String.prefix sep s ||
  match s with
  | EmptyString => false
  | String _ s' => contains sep s'
  end.

(** [s.split(c)[0]] for a one-character separator: the text before the
    first [c], the whole of [s] when there is none. *)
Fixpoint before_first (c : ascii) (s : string) : string :=
  match s with
  | EmptyString => EmptyString
  | String d s' => if Ascii.eqb c d then EmptyString else String d (before_first c s')
  end.

End PyStr.

(** ** Values of the source's data model *)

(** What a call either gives back or raises. *)
Inductive Outcome (A : Type) : Type :=
  | Raised (e : string)
  | Returned (a : A).
Arguments Raised {A} e.
Arguments Returned {A} a.

(** The values a Python function of this program hands to its caller. *)
Inductive pyval : Type :=
  | PyNone
  | PyBool (b : bool).

(** A heading entry of a page record is a list of strings when the record
    is created and a single string once the record has been flattened. *)
Inductive HeadingField : Type :=
  | HList (l : list string)
  | HStr (s : string).

(** [sep.join(v)]: joining a string joins its characters. *)
Definition py_join (sep : string) (v : HeadingField) : string :=
  match v with
  | HList l => PyStr.join sep l
  | HStr s => PyStr.join sep (PyStr.chars s)
  end.

(** The dictionary built by [extract_text_elements], keys in insertion order. *)
Record PageData : Type := mkPageData {
  pd_url : string;
  pd_title : string;
  pd_meta_description : string;
  pd_h1 : HeadingField;
  pd_h2 : HeadingField;
  pd_h3_plus : HeadingField;
  pd_body_text : string;
  pd_date_crawled : string;
  pd_errors : string
}.

(** What the crawler asks of a parsed page. [soup_a_href] lists the [href]
    of every anchor that has one, in document order, as the tree stands;
    [soup_a_href_content] is that list once the navigation, header, footer,
    script, style and iframe elements have been removed from the tree.
    [soup_raises] makes extraction raise at the given stage. *)
Record Soup : Type := mkSoup {
  soup_title : option string;
  soup_meta_description : option string;
  soup_headings : nat -> list string;
  soup_a_href : list string;
  soup_a_href_content : list string;
  soup_select_one : string -> option string;
  soup_body : option string;
  soup_raises : option (nat * string)
}.

(** [tag.decompose()] for each non-content element: the tree is modified in
    place, so later link extraction sees only the remaining anchors. *)
Definition decompose_non_content (s : Soup) : Soup :=
  {| soup_title := soup_title s;
     soup_meta_description := soup_meta_description s;
     soup_headings := soup_headings s;
     soup_a_href := soup_a_href_content s;
     soup_a_href_content := soup_a_href_content s;
     soup_select_one := soup_select_one s;
     soup_body := soup_body s;
     soup_raises := soup_raises s |}.

(** ** Configuration *)

(** The [config] dictionary; [None] is an absent key. *)
Record Config : Type := mkConfig {
  start_url : string;
  cfg_max_depth : option Z;
  cfg_max_pages : option Z;
  cfg_max_queue_size : option Z;
  cfg_request_delay : option Q;
  cfg_selenium_wait : option Q;
  cfg_restrict_to_domain : option bool;
  cfg_ignore_extensions : option (list string);
  cfg_ignore_url_params : option bool;
  cfg_breadth_first : option bool;
  cfg_use_selenium : option bool;
  cfg_content_selectors : option (list string)
}.

Definition max_depth (c : Config) : Z := default 3 (cfg_max_depth c).
Definition max_queue_size (c : Config) : Z := default 1000 (cfg_max_queue_size c).
Definition request_delay (c : Config) : Q := default 1%Q (cfg_request_delay c).
Definition selenium_wait (c : Config) : Q := default 2%Q (cfg_selenium_wait c).
Definition restrict_to_domain (c : Config) : bool :=
  default true (cfg_restrict_to_domain c).
Definition ignore_extensions (c : Config) : list string :=
  default [".pdf"; ".jpg"; ".png"; ".gif"; ".css"; ".js"] (cfg_ignore_extensions c).
Definition ignore_url_params (c : Config) : bool :=
  default true (cfg_ignore_url_params c).
Definition breadth_first (c : Config) : bool := default true (cfg_breadth_first c).
Definition use_selenium (c : Config) : bool := default false (cfg_use_selenium c).
Definition content_selectors (c : Config) : list string :=
  default ["main"; "article"; "#content"; ".content"] (cfg_content_selectors c).

(** [len(self.visited_urls) >= self.config.get('max_pages', float('inf'))]. *)
Definition max_pages_reached (c : Config) (n : nat) : bool :=
  match cfg_max_pages c with
  | None => false
  | Some m => m <=? Z.of_nat n
  end.

(** ** The outside world *)

(** Every oracle that stands for an interaction takes the number of the
    interaction ([tick]) first. [session_get] is one call of the retrying
    session: it raises, or answers with a status and a body. [driver_get]
    is a page load of the browser ([Some e]: it raises [e]) and
    [driver_page_source] the read of the loaded document. [io_open] and
    [io_write] say whether opening a file for writing, and writing one row
    to it, fail ([Some e]) or not. The rows go to the file through a
    buffer: a failure can surface at a later row than the one it belongs
    to, or when the file is closed (it is then counted at the last row),
    and what has reached the file by then need not be whole rows;
    [io_torn] gives the content the file is left with.

    [urljoin], [netloc] and [BeautifulSoup] give the result of the call
    when it returns. When the call raises instead, [urljoin_error],
    [urlparse_error] and [parse_error] give the exception ([Some e]):
    [urljoin] and [urlparse] raise [ValueError] on a malformed reference,
    and the parser raises on markup it rejects. [http_error_text] is the
    text of the error [raise_for_status] raises, [webdriver_error] says
    whether starting the browser raises and [driver_quit_error] whether
    quitting it does. *)
Record Env : Type := mkEnv {
  validators_url : string -> bool;
  urljoin : string -> string -> string;
  netloc : string -> string;
  session_get : nat -> string -> Outcome (Z * string);
  driver_get : nat -> string -> option string;
  driver_page_source : nat -> Outcome string;
  BeautifulSoup : string -> Soup;
  randbelow : nat -> nat -> nat;
  now : nat -> string;
  io_open : nat -> string -> option string;
  io_write : nat -> string -> option string;
  io_torn : nat -> string -> list (list string);
  urljoin_error : string -> string -> option string;
  urlparse_error : string -> option string;
  parse_error : string -> option string;
  http_error_text : nat -> string -> string;
  webdriver_error : option string;
  driver_quit_error : nat -> option string
}.

(** ** The crawler object *)

Inductive Event : Type :=
  | EvVisit (url : string)
  | EvRequest (url : string)
  | EvSleep (seconds : Q)
  | EvEnqueue (url : string).

Inductive LogLevel : Type := INFO | WARNING | ERROR.

(** The file the logger of the source appends its lines to. The lines
    logged are kept in the [log] of the crawler; [files] holds the content
    of the files written through [open]. *)
Definition log_file : string := "web_crawler.log".

(** The attributes of a [WebCrawler], followed by the state of the world it
    acts on: interaction counter, effects so far, log, files (a file is the
    list of rows written to it, a row the list of its cells). *)
Record Crawler : Type := mkCrawler {
  visited_urls : gset string;
  urls_to_visit : list string;
  current_depth : Z;
  data : list PageData;
  tick : nat;
  trace : list Event;
  log : list (LogLevel * string);
  files : gmap string (list (list string))
}.

Definition set_visited_urls (v : gset string) (st : Crawler) : Crawler :=
  mkCrawler v (urls_to_visit st) (current_depth st) (data st) (tick st)
            (trace st) (log st) (files st).
Definition set_urls_to_visit (q : list string) (st : Crawler) : Crawler :=
  mkCrawler (visited_urls st) q (current_depth st) (data st) (tick st)
            (trace st) (log st) (files st).
Definition set_current_depth (d : Z) (st : Crawler) : Crawler :=
  mkCrawler (visited_urls st) (urls_to_visit st) d (data st) (tick st)
            (trace st) (log st) (files st).
Definition set_data (d : list PageData) (st : Crawler) : Crawler :=
  mkCrawler (visited_urls st) (urls_to_visit st) (current_depth st) d (tick st)
            (trace st) (log st) (files st).
Definition set_files (f : gmap string (list (list string))) (st : Crawler) : Crawler :=
  mkCrawler (visited_urls st) (urls_to_visit st) (current_depth st) (data st)
            (tick st) (trace st) (log st) f.
(** One more interaction with the world. *)
Definition next_tick (st : Crawler) : Crawler :=
  mkCrawler (visited_urls st) (urls_to_visit st) (current_depth st) (data st)
            (S (tick st)) (trace st) (log st) (files st).
Definition emit (e : Event) (st : Crawler) : Crawler :=
  mkCrawler (visited_urls st) (urls_to_visit st) (current_depth st) (data st)
            (tick st) (trace st ++ [e]) (log st) (files st).
(** A line of the logger: kept in [log], which stands for the content of
    [log_file]; [files] holds the other files. *)
Definition logger (lvl : LogLevel) (msg : string) (st : Crawler) : Crawler :=
  mkCrawler (visited_urls st) (urls_to_visit st) (current_depth st) (data st)
            (tick st) (trace st) (log st ++ [(lvl, msg)]) (files st).

(** [WebCrawler(config)]. The read of robots.txt that the constructor
    attempts has no effect on the crawl ([can_fetch] ignores it) and is not
    part of the trace. *)
Definition init (c : Config) : Crawler :=
  mkCrawler ∅ [start_url c] 0 [] 0 [] [] ∅.

(** The projections of a trace. *)
Definition visits (tr : list Event) : list string :=
  omap (λ e, match e with EvVisit u => Some u | _ => None end) tr.
Definition requests (tr : list Event) : list string :=
  omap (λ e, match e with EvRequest u => Some u | _ => None end) tr.
Definition sleeps (tr : list Event) : list Q :=
  omap (λ e, match e with EvSleep d => Some d | _ => None end) tr.
Definition enqueues (tr : list Event) : list string :=
  omap (λ e, match e with EvEnqueue u => Some u | _ => None end) tr.

(** ** Operations of [WebCrawler] *)

Section Operations.

Variable env : Env.
Variable cfg : Config.

(** [self.domain], fixed by the constructor. *)
Definition domain : string := netloc env (start_url cfg).

(** [can_fetch]: the robots.txt rules are bypassed; it logs and says yes. *)
Definition can_fetch (url : string) (st : Crawler) : bool * Crawler :=
  (true, logger INFO "Note: Bypassing robots.txt check for educational purposes" st).

(** [is_valid_url]. The URL is lower-cased, the extensions are not. *)
Definition is_valid_url (url : string) : bool :=
  if negb (validators_url env url) then false
  else if restrict_to_domain cfg && negb (String.eqb (netloc env url) domain) then false
  else if existsb (λ ext, PyStr.endswith (PyStr.lower url) ext) (ignore_extensions cfg)
  then false
  else true.

(** [response.raise_for_status()] raises for the 4xx and 5xx statuses. *)
Definition raise_for_status (status : Z) : bool :=
  (400 <=? status) && (status <? 600).

(** [time.sleep(seconds)]: raises [ValueError] for a negative length. *)
Definition sleep (seconds : Q) (st : Crawler) : Crawler * Outcome unit :=
  if Qle_bool 0 seconds then (emit (EvSleep seconds) st, Returned ())
  else (st, Raised "sleep length must be non-negative").

(** The body of the [try] of [get_page_content]: the state reached, and
    what the body returned or raised. *)
Definition get_page_content_try (url : string) (st : Crawler)
  : Crawler * Outcome (option string) :=
  let '(allowed, st) := can_fetch url st in
  if negb allowed then
    (logger WARNING ("Robots.txt disallows fetching " +:+ url) st, Returned None)
  else
    let st := logger INFO ("Fetching: " +:+ url) st in
    if use_selenium cfg then
      let t := tick st in
      let st := next_tick (emit (EvRequest url) st) in
      match driver_get env t url with
      | Some e => (st, Raised e)
      | None =>
          match sleep (selenium_wait cfg) st with
          | (st, Raised e) => (st, Raised e)
          | (st, Returned _) =>
              match driver_page_source env t with
              | Raised e => (st, Raised e)
              | Returned html_content =>
                  match sleep (request_delay cfg) st with
                  | (st, Raised e) => (st, Raised e)
                  | (st, Returned _) => (st, Returned (Some html_content))
                  end
              end
          end
      end
    else
      let t := tick st in
      let st := next_tick (emit (EvRequest url) st) in
      match session_get env t url with
      | Raised e => (st, Raised e)
      | Returned (status, text) =>
          if raise_for_status status then (st, Raised (http_error_text env t url))
          else
            match sleep (request_delay cfg) st with
            | (st, Raised e) => (st, Raised e)
            | (st, Returned _) => (st, Returned (Some text))
            end
      end.

(** [get_page_content]: any exception is logged and turned into [None]. *)
Definition get_page_content (url : string) (st : Crawler) : option string * Crawler :=
  match get_page_content_try url st with
  | (st, Returned r) => (r, st)
  | (st, Raised e) =>
      (None, logger ERROR ("Error fetching " +:+ url +:+ ": " +:+ e) st)
  end.

(** The resolved form of one anchor: joined with the base, then cut at the
    first [#] and at the first [?] when [ignore_url_params] holds. This is
    the value when [urljoin] returns; [extract_links_loop_run] below has
    the call in which it raises. *)
Definition absolute_url_of (base_url href : string) : string :=
  let absolute_url := urljoin env base_url href in
  if ignore_url_params cfg
  then PyStr.before_first "?" (PyStr.before_first "#" absolute_url)
  else absolute_url.

(** The loop of [extract_links] over the anchors, [links] being the list
    built so far. The visited set and the queue are those of the crawler
    at the time of the call; [links] itself is not consulted. *)
Fixpoint extract_links_loop (st : Crawler) (base_url : string)
    (a_tags : list string) (links : list string) : list string :=
  match a_tags with
  | [] => links
  | href :: rest =>
      let absolute_url := absolute_url_of base_url href in
      if is_valid_url absolute_url
         && negb (bool_decide (absolute_url ∈ visited_urls st))
         && negb (bool_decide (absolute_url ∈ urls_to_visit st))
      then extract_links_loop st base_url rest (links ++ [absolute_url])
      else extract_links_loop st base_url rest links
  end.

Definition extract_links (st : Crawler) (soup : Soup) (base_url : string)
  : list string :=
  extract_links_loop st base_url (soup_a_href soup) [].

(** *** Content extraction *)

Definition set_title (v : string) (p : PageData) : PageData :=
  mkPageData (pd_url p) v (pd_meta_description p) (pd_h1 p) (pd_h2 p)
             (pd_h3_plus p) (pd_body_text p) (pd_date_crawled p) (pd_errors p).
Definition set_meta_description (v : string) (p : PageData) : PageData :=
  mkPageData (pd_url p) (pd_title p) v (pd_h1 p) (pd_h2 p)
             (pd_h3_plus p) (pd_body_text p) (pd_date_crawled p) (pd_errors p).
Definition set_h1 (v : HeadingField) (p : PageData) : PageData :=
  mkPageData (pd_url p) (pd_title p) (pd_meta_description p) v (pd_h2 p)
             (pd_h3_plus p) (pd_body_text p) (pd_date_crawled p) (pd_errors p).
Definition set_h2 (v : HeadingField) (p : PageData) : PageData :=
  mkPageData (pd_url p) (pd_title p) (pd_meta_description p) (pd_h1 p) v
             (pd_h3_plus p) (pd_body_text p) (pd_date_crawled p) (pd_errors p).
Definition set_h3_plus (v : HeadingField) (p : PageData) : PageData :=
  mkPageData (pd_url p) (pd_title p) (pd_meta_description p) (pd_h1 p) (pd_h2 p)
             v (pd_body_text p) (pd_date_crawled p) (pd_errors p).
Definition set_body_text (v : string) (p : PageData) : PageData :=
  mkPageData (pd_url p) (pd_title p) (pd_meta_description p) (pd_h1 p) (pd_h2 p)
             (pd_h3_plus p) v (pd_date_crawled p) (pd_errors p).
Definition set_errors (v : string) (p : PageData) : PageData :=
  mkPageData (pd_url p) (pd_title p) (pd_meta_description p) (pd_h1 p) (pd_h2 p)
             (pd_h3_plus p) (pd_body_text p) (pd_date_crawled p) v.

(** The entries of [h3_plus]: levels 3 to 6 in turn, each text prefixed
    with its tag. *)
Definition h3_plus_of (soup : Soup) : list string :=
  flat_map (λ i : nat, map (λ text, "h" +:+ pretty.pretty i +:+ ": " +:+ text)
                          (soup_headings soup i))
           [3; 4; 5; 6]%nat.

(** The first selector that matches gives the main content. *)
Fixpoint select_main (soup : Soup) (selectors : list string) : option string :=
  match selectors with
  | [] => None
  | selector :: rest =>
      match soup_select_one soup selector with
      | Some t => Some t
      | None => select_main soup rest
      end
  end.

(** The white space [str.split()] cuts at, among the first 256
    characters: space, tab to carriage return, the four separators, next
    line and no-break space. *)
Definition is_space (c : ascii) : bool :=
  let n := nat_of_ascii c in
  ((n =? 32) || ((9 <=? n) && (n <=? 13)) || ((28 <=? n) && (n <=? 31))
   || (n =? 133) || (n =? 160))%nat.

(** [text.split()]: the maximal runs of non-blank characters. *)
Fixpoint words_from (cur : string) (s : string) : list string :=
  match s with
  | EmptyString => if String.eqb cur "" then [] else [cur]
  | String c s' =>
      if is_space c
      then (if String.eqb cur "" then words_from "" s' else cur :: words_from "" s')
      else words_from (cur +:+ String c "") s'
  end.

Definition normalize_ws (text : string) : string :=
  PyStr.join " " (words_from "" text).

(** The steps of the [try] of [extract_text_elements], in order; each acts
    on the record being filled and on the tree. *)
Definition extraction_stages : list (PageData * Soup -> PageData * Soup) :=
  [ (λ '(p, s), (match soup_title s with Some t => set_title t p | None => p end, s));
    (λ '(p, s), (match soup_meta_description s with
                 | Some d => set_meta_description d p | None => p end, s));
    (λ '(p, s), (set_h1 (HList (soup_headings s 1%nat)) p, s));
    (λ '(p, s), (set_h2 (HList (soup_headings s 2%nat)) p, s));
    (λ '(p, s), (set_h3_plus (HList (h3_plus_of s)) p, s));
    (λ '(p, s), (p, decompose_non_content s));
    (λ '(p, s),
       (match (match select_main s (content_selectors cfg) with
               | Some t => Some t
               | None => soup_body s
               end) with
        | Some t => set_body_text (normalize_ws t) p
        | None => p
        end, s)) ].

(** [extract_text_elements]: the record, and the tree as extraction left
    it. An exception at stage [k] keeps what the earlier stages filled in
    and records the message. *)
Definition extract_text_elements (soup : Soup) (url : string) (st : Crawler)
  : PageData * Soup * Crawler :=
  let page_data :=
    mkPageData url "" "" (HList []) (HList []) (HList []) "" (now env (tick st)) "" in
  let st := next_tick st in
  let run := foldl (λ acc f, f acc) (page_data, soup) in
  match soup_raises soup with
  | Some (k, e) =>
      if (k <? length extraction_stages)%nat then
        let '(p, s) := run (take k extraction_stages) in
        let error_msg := "Error extracting content: " +:+ e in
        (set_errors error_msg p, s, logger ERROR error_msg st)
      else (run extraction_stages, st)
  | None => (run extraction_stages, st)
  end.

(** *** The crawl *)

(** [self.urls_to_visit.extend(links)]. *)
Definition extend_urls_to_visit (links : list string) (st : Crawler) : Crawler :=
  mkCrawler (visited_urls st) (urls_to_visit st ++ links) (current_depth st)
            (data st) (tick st) (trace st ++ map EvEnqueue links) (log st) (files st).

(** The [for] loop of [crawl] over the batch of one depth. [continue] goes
    on with the rest of the batch, [break] leaves the loop. This is the
    loop as long as neither the parser nor [extract_links] raises;
    [crawl_batch_run] below has the exceptions. *)
Fixpoint crawl_batch (urls_at_current_depth : list string) (st : Crawler) : Crawler :=
  match urls_at_current_depth with
  | [] => st
  | url :: rest =>
      if bool_decide (url ∈ visited_urls st) then crawl_batch rest st
      else
        let st := emit (EvVisit url) (set_visited_urls ({[url]} ∪ visited_urls st) st) in
        if max_pages_reached cfg (size (visited_urls st)) then st
        else
          let '(html_content, st) := get_page_content url st in
          match html_content with
          | Some (String _ _ as html) =>
              let soup := BeautifulSoup env html in
              let '(page_data, soup, st) := extract_text_elements soup url st in
              let st := set_data (data st ++ [page_data]) st in
              let st :=
                if current_depth st <? max_depth cfg
                then extend_urls_to_visit (extract_links st soup url) st
                else st in
              crawl_batch rest st
          | _ => crawl_batch rest st
          end
  end.

(** [x[i], x[j] = x[j], x[i]]. *)
Definition swap (x : list string) (i j : nat) : list string :=
  match x !! i, x !! j with
  | Some a, Some b => <[i := b]> (<[j := a]> x)
  | _, _ => x
  end.

(** [random.shuffle(x)]: for [i] from the last index down to 1, the entry
    at [i] is exchanged with the one at a random index of [0..i]. *)
Fixpoint shuffle_from (rand : nat -> nat) (i : nat) (x : list string) : list string :=
  match i with
  | O => x
  | S i' => shuffle_from rand i' (swap x i (rand (S i) `mod` S i)%nat)
  end.

Definition shuffle (t : nat) (x : list string) : list string :=
  shuffle_from (randbelow env t) (length x - 1) x.

(** [x[:n]] for an integer [n] of either sign. *)
Definition slice_to (n : Z) (x : list string) : list string :=
  if 0 <=? n then take (Z.to_nat n) x
  else take (Z.to_nat (Z.of_nat (length x) + n)) x.

(** The condition of the [while] loop. *)
Definition loop_condition (st : Crawler) : bool :=
  match urls_to_visit st with
  | [] => false
  | _ :: _ => current_depth st <=? max_depth cfg
  end.

(** One turn of the [while] loop: the batch of the current depth, then the
    move to the next depth, the shuffle and the cap of the queue. *)
Definition crawl_depth (st : Crawler) : Crawler :=
  let urls_at_current_depth := urls_to_visit st in
  let st := set_urls_to_visit [] st in
  let st := crawl_batch urls_at_current_depth st in
  let st := set_current_depth (current_depth st + 1) st in
  let st :=
    if negb (breadth_first cfg)
    then next_tick (set_urls_to_visit (shuffle (tick st) (urls_to_visit st)) st)
    else st in
  if Z.of_nat (length (urls_to_visit st)) >? max_queue_size cfg
  then set_urls_to_visit (slice_to (max_queue_size cfg) (urls_to_visit st)) st
  else st.

Fixpoint crawl_loop (fuel : nat) (st : Crawler) : Crawler :=
  match fuel with
  | O => st
  | S fuel' => if loop_condition st then crawl_loop fuel' (crawl_depth st) else st
  end.

(** [crawl]. Each turn of the loop adds one to the depth, so the loop ends
    within [max_depth + 1 - current_depth] turns ([crawl_loop_ends]). The
    progress messages of [crawl] and the life cycle of the browser are
    not modelled. *)
Definition crawl (st : Crawler) : Crawler :=
  crawl_loop (Z.to_nat (max_depth cfg + 1 - current_depth st)) st.

(** *** Export *)

Definition sep : string := " | ".

(** The three assignments of the flattening loop, for one record. *)
Definition flatten_item (item : PageData) : PageData :=
  let item := set_h1 (HStr (py_join sep (pd_h1 item))) item in
  let item := set_h2 (HStr (py_join sep (pd_h2 item))) item in
  set_h3_plus (HStr (py_join sep (pd_h3_plus item))) item.

(** [self.data[0].keys()]: every record has the same keys. *)
Definition fieldnames : list string :=
  ["url"; "title"; "meta_description"; "h1"; "h2"; "h3_plus"; "body_text";
   "date_crawled"; "errors"].

(** The text the CSV writer puts in a cell. A list, which no record holds
    any more when the rows are written, would be written as its [str()],
    given here for texts without quotes. *)
Definition cell (v : HeadingField) : string :=
  match v with
  | HStr s => s
  | HList l => "[" +:+ PyStr.join ", " (map (λ s, "'" +:+ s +:+ "'") l) +:+ "]"
  end.

Definition row_of (p : PageData) : list string :=
  [pd_url p; pd_title p; pd_meta_description p; cell (pd_h1 p); cell (pd_h2 p);
   cell (pd_h3_plus p); pd_body_text p; pd_date_crawled p; pd_errors p].

(** Writing rows one after the other; a failing write raises and leaves
    the file with what had reached it. *)
Fixpoint writerows (filename : string) (rows : list (list string)) (st : Crawler)
  : Crawler * Outcome unit :=
  match rows with
  | [] => (st, Returned ())
  | row :: rest =>
      let t := tick st in
      let st := next_tick st in
      match io_write env t filename with
      | Some e =>
          (set_files (<[filename := io_torn env t filename]> (files st)) st, Raised e)
      | None =>
          let written := default [] (files st !! filename) in
          writerows filename rest
            (set_files (<[filename := written ++ [row]]> (files st)) st)
      end
  end.

(** The body of the [try] of [export_to_csv]. *)
Definition export_to_csv_try (filename : string) (st : Crawler)
  : Crawler * Outcome unit :=
  let t := tick st in
  let st := next_tick st in
  match io_open env t filename with
  | Some e => (st, Raised e)
  | None =>
      let st := set_files (<[filename := []]> (files st)) st in
      let st := set_data (map flatten_item (data st)) st in
      match writerows filename (fieldnames :: map row_of (data st)) st with
      | (st, Raised e) => (st, Raised e)
      | (st, Returned _) =>
          (logger INFO ("Data exported to " +:+ filename) st, Returned ())
      end
  end.

(** [export_to_csv]: no [return] carries a value, so the caller receives
    [None] on every path. *)
Definition export_to_csv (filename : string) (st : Crawler)
  : Crawler * Outcome pyval :=
  match data st with
  | [] => (logger WARNING "No data to export" st, Returned PyNone)
  | _ :: _ =>
      match export_to_csv_try filename st with
      | (st, Returned _) => (st, Returned PyNone)
      | (st, Raised e) =>
          (logger ERROR ("Error exporting data to CSV: " +:+ e) st, Returned PyNone)
      end
  end.

End Operations.

(** ** The exceptions the crawler lets through *)

(** [is_valid_url], [extract_links] and [crawl] above describe a call in
    which no library function raises. Three calls of the source stand
    outside any [try]: [urljoin] in [extract_links], [urlparse] in
    [is_valid_url] and the parser in [crawl]; [crawl] also quits the
    browser outside any [try]. What they raise goes through [extract_links]
    and [crawl] to the caller. The definitions below are the same
    functions with these exceptions: a function that can raise gives an
    [Outcome], and [crawl_run] gives the state the crawler is left in
    together with the outcome. *)

Section Runs.

Variable env : Env.
Variable cfg : Config.

(** [is_valid_url]: a URL the validator rejects is refused before it is
    parsed; parsing an accepted one may raise. *)
Definition is_valid_url_run (url : string) : Outcome bool :=
  if negb (validators_url env url) then Returned false
  else
    match urlparse_error env url with
    | Some e => Raised e
    | None => Returned (is_valid_url env cfg url)
    end.

(** The loop of [extract_links]: the first anchor on which [urljoin] or
    [urlparse] raises ends the call, and the links built so far are lost. *)
Fixpoint extract_links_loop_run (st : Crawler) (base_url : string)
    (a_tags : list string) (links : list string) : Outcome (list string) :=
  match a_tags with
  | [] => Returned links
  | href :: rest =>
      match urljoin_error env base_url href with
      | Some e => Raised e
      | None =>
          let absolute_url := absolute_url_of env cfg base_url href in
          match is_valid_url_run absolute_url with
          | Raised e => Raised e
          | Returned valid =>
              if valid
                 && negb (bool_decide (absolute_url ∈ visited_urls st))
                 && negb (bool_decide (absolute_url ∈ urls_to_visit st))
              then extract_links_loop_run st base_url rest (links ++ [absolute_url])
              else extract_links_loop_run st base_url rest links
          end
      end
  end.

Definition extract_links_run (st : Crawler) (soup : Soup) (base_url : string)
  : Outcome (list string) :=
  extract_links_loop_run st base_url (soup_a_href soup) [].

(** The [for] loop of [crawl]; an exception of the parser or of
    [extract_links] leaves the loop with the state as it is then. *)
Fixpoint crawl_batch_run (urls_at_current_depth : list string) (st : Crawler)
  : Crawler * Outcome unit :=
  match urls_at_current_depth with
  | [] => (st, Returned ())
  | url :: rest =>
      if bool_decide (url ∈ visited_urls st) then crawl_batch_run rest st
      else
        let st := emit (EvVisit url) (set_visited_urls ({[url]} ∪ visited_urls st) st) in
        if max_pages_reached cfg (size (visited_urls st)) then (st, Returned ())
        else
          let '(html_content, st) := get_page_content env cfg url st in
          match html_content with
          | Some (String _ _ as html) =>
              match parse_error env html with
              | Some e => (st, Raised e)
              | None =>
                  let soup := BeautifulSoup env html in
                  let '(page_data, soup, st) :=
                    extract_text_elements env cfg soup url st in
                  let st := set_data (data st ++ [page_data]) st in
                  if current_depth st <? max_depth cfg
                  then
                    match extract_links_run st soup url with
                    | Raised e => (st, Raised e)
                    | Returned extracted_links =>
                        crawl_batch_run rest (extend_urls_to_visit extracted_links st)
                    end
                  else crawl_batch_run rest st
              end
          | _ => crawl_batch_run rest st
          end
  end.

(** What a turn of the [while] loop does after the batch: next depth,
    shuffle, cap. *)
Definition next_depth (st : Crawler) : Crawler :=
  let st := set_current_depth (current_depth st + 1) st in
  let st :=
    if negb (breadth_first cfg)
    then next_tick (set_urls_to_visit (shuffle env (tick st) (urls_to_visit st)) st)
    else st in
  if Z.of_nat (length (urls_to_visit st)) >? max_queue_size cfg
  then set_urls_to_visit (slice_to (max_queue_size cfg) (urls_to_visit st)) st
  else st.

Definition crawl_depth_run (st : Crawler) : Crawler * Outcome unit :=
  match crawl_batch_run (urls_to_visit st) (set_urls_to_visit [] st) with
  | (st, Raised e) => (st, Raised e)
  | (st, Returned _) => (next_depth st, Returned ())
  end.

Fixpoint crawl_loop_run (fuel : nat) (st : Crawler) : Crawler * Outcome unit :=
  match fuel with
  | O => (st, Returned ())
  | S fuel' =>
      if loop_condition cfg st then
        match crawl_depth_run st with
        | (st, Raised e) => (st, Raised e)
        | (st, Returned _) => crawl_loop_run fuel' st
        end
      else (st, Returned ())
  end.

(** [self.driver.quit()], when the browser is in use. *)
Definition quit_driver (st : Crawler) : Outcome unit :=
  if use_selenium cfg then
    match driver_quit_error env (tick st) with
    | Some e => Raised e
    | None => Returned ()
    end
  else Returned ().

(** [crawl], with what it raises. The browser is quit only when the loop
    ended without an exception. *)
Definition crawl_run (st : Crawler) : Crawler * Outcome unit :=
  match crawl_loop_run (Z.to_nat (max_depth cfg + 1 - current_depth st)) st with
  | (st, Raised e) => (st, Raised e)
  | (st, Returned _) => (st, quit_driver st)
  end.



End Runs.

(** ** A small site to run the crawler on *)

Module Site.

Definition A : string := "http://example.com/a".
Definition B : string := "http://example.com/b".
Definition C : string := "http://example.com/c".
Definition D : string := "http://example.com/d".
Definition E : string := "http://example.com/e".

(** The page served at each address is named by a letter; [A] links to
    [B] and [C], [B] to [D] and [E], [E] twice to [D]. *)
Definition serve (url : string) : Outcome (Z * string) :=
  if String.eqb url A then Returned (200, "page A")
  else if String.eqb url B then Returned (200, "page B")
  else if String.eqb url C then Returned (200, "page C")
  else if String.eqb url D then Returned (200, "page D")
  else if String.eqb url E then Returned (200, "page E")
  else if String.eqb url "http://example.com/empty" then Returned (200, "")
  else if String.eqb url "http://example.com/report.pdf" then Returned (200, "page D")
  else if String.eqb url "http://example.com/down" then Raised "ConnectionError"
  else Returned (404, "not found").

Definition links_of (html : string) : list string :=
  if String.eqb html "page A" then [B; C]
  else if String.eqb html "page B" then [D; E]
  else if String.eqb html "page E" then [D; D]
  else [].

Definition parse (html : string) : Soup :=
  {| soup_title := Some html;
     soup_meta_description := None;
     soup_headings := λ i, if (i =? 1)%nat then ["Welcome"; "News"] else [];
     soup_a_href := links_of html;
     soup_a_href_content := links_of html;
     soup_select_one := λ _, None;
     soup_body := Some html;
     soup_raises := None |}.

(** Text after the scheme up to the next slash. *)
Definition host (url : string) : string :=
  PyStr.before_first "/" (String.substring 7 (String.length url - 7) url).

(** The links of the site are absolute, so joining returns the reference. *)
Definition env : Env :=
  {| validators_url := String.prefix "http://";
     urljoin := λ _ href, href;
     netloc := host;
     session_get := λ _ url, serve url;
     driver_get := λ _ _, None;
     driver_page_source := λ _, Returned "page C";
     BeautifulSoup := parse;
     randbelow := λ t n, (t + n)%nat;
     now := λ _, "2025-04-27 12:00:00";
     io_open := λ _ name, if String.eqb name "/" then Some "IsADirectoryError" else None;
     io_write := λ _ name, if String.eqb name "full.csv" then Some "OSError" else None;
     io_torn := λ _ _, [["url"; "ti"]];
     urljoin_error := λ _ href,
       if String.prefix "http://[" href then Some "ValueError: Invalid IPv6 URL"
       else None;
     urlparse_error := λ url,
       if String.prefix "http://[" url then Some "ValueError: Invalid IPv6 URL"
       else None;
     parse_error := λ html,
       if PyStr.contains "<![" html then Some "AssertionError" else None;
     http_error_text := λ _ url, "404 Client Error: Not Found for url: " +:+ url;
     webdriver_error := None;
     driver_quit_error := λ _, None |}.

(** The configuration [main] builds, with the given seed, depth and page
    bound, and the batches kept in order. *)
Definition config (seed : string) (depth : Z) (pages : option Z) : Config :=
  {| start_url := seed;
     cfg_max_depth := Some depth;
     cfg_max_pages := pages;
     cfg_max_queue_size := None;
     cfg_request_delay := Some 1%Q;
     cfg_selenium_wait := None;
     cfg_restrict_to_domain := Some true;
     cfg_ignore_extensions :=
       Some [".pdf"; ".jpg"; ".jpeg"; ".png"; ".gif"; ".svg"; ".css"; ".js";
             ".mp3"; ".mp4"; ".zip"; ".tar.gz"];
     cfg_ignore_url_params := None;
     cfg_breadth_first := Some true;
     cfg_use_selenium := Some false;
     cfg_content_selectors :=
       Some ["main"; "article"; "#content"; ".content"; ".main-content"] |}.

(** The same with shuffled batches, as [main] runs without its
    [--breadth-first] flag. *)
Definition config_shuffled (seed : string) (depth : Z) (pages : option Z) : Config :=
  {| start_url := seed;
     cfg_max_depth := Some depth;
     cfg_max_pages := pages;
     cfg_max_queue_size := None;
     cfg_request_delay := Some 1%Q;
     cfg_selenium_wait := None;
     cfg_restrict_to_domain := Some true;
     cfg_ignore_extensions := cfg_ignore_extensions (config seed depth pages);
     cfg_ignore_url_params := None;
     cfg_breadth_first := Some false;
     cfg_use_selenium := Some false;
     cfg_content_selectors := cfg_content_selectors (config seed depth pages) |}.

(** The crawler after a crawl of the whole site from [A]. *)
Definition crawled : Crawler :=
  crawl env (config A 3 None) (init (config A 3 None)).

(** The record the crawl makes of page [B]. *)
Definition record_B : PageData :=
  mkPageData B "page B" "" (HList ["Welcome"; "News"]) (HList []) (HList [])
             "page B" "2025-04-27 12:00:00" "".

(** A crawler holding one record whose headings are at most one character
    long. *)
Definition terse : Crawler :=
  set_data [mkPageData A "page A" "" (HList ["A"]) (HList []) (HList [])
                       "page A" "2025-04-27 12:00:00" ""]
           (init (config A 3 None)).

End Site.

(** ** The claims of the specification, as it words them *)

(** Re-splitting the exported heading field gives back the heading texts,
    when none of them contains the delimiter. *)
Definition heading_round_trip (headings : list string) : Prop :=
  Forall (λ text, PyStr.contains sep text = false) headings ->
  PyStr.split sep (py_join sep (HList headings)) = headings.

(** The test [extract_links] applies to a resolved URL. *)
Definition link_accepted (env : Env) (cfg : Config) (st : Crawler)
    (url : string) : bool :=
  is_valid_url env cfg url
  && negb (bool_decide (url ∈ visited_urls st))
  && negb (bool_decide (url ∈ urls_to_visit st)).

(** The fetch ends with the sleep of the configured delay. *)
Definition delay_before_return (env : Env) (cfg : Config) (url : string)
    (st : Crawler) : Prop :=
  exists earlier,
    trace (get_page_content env cfg url st).2
    = earlier ++ [EvSleep (request_delay cfg)].


(** A failed export hands the caller the boolean [False]. *)
Definition export_surfaces_failure (env : Env) (filename : string)
    (st : Crawler) : Prop :=
  forall e, (export_to_csv_try env filename st).2 = Raised e ->
            (export_to_csv env filename st).2 = Returned (PyBool false).

(** [after] is [before] with its three heading entries joined and nothing
    else changed. *)
Definition flattened (before after : PageData) : Prop :=
  pd_h1 after = HStr (py_join sep (pd_h1 before)) /\
  pd_h2 after = HStr (py_join sep (pd_h2 before)) /\
  pd_h3_plus after = HStr (py_join sep (pd_h3_plus before)) /\
  pd_url after = pd_url before /\
  pd_title after = pd_title before /\
  pd_meta_description after = pd_meta_description before /\
  pd_body_text after = pd_body_text before /\
  pd_date_crawled after = pd_date_crawled before /\
  pd_errors after = pd_errors before.

(** Some heading entry of the record is, once joined, longer than one
    character. *)
Definition long_heading (item : PageData) : Prop :=
  (2 <= String.length (py_join sep (pd_h1 item)))%nat \/
  (2 <= String.length (py_join sep (pd_h2 item)))%nat \/
  (2 <= String.length (py_join sep (pd_h3_plus item)))%nat.

(** An export of non-empty data leaves every record flattened, and a
    second export does not write what the first wrote. *)
Definition export_mutates_and_differs (env : Env) (filename : string)
    (st : Crawler) : Prop :=
  data st <> [] ->
  let st1 := (export_to_csv env filename st).1 in
  let st2 := (export_to_csv env filename st1).1 in
  Forall2 flattened (data st) (data st1) /\
  files st2 !! filename <> files st1 !! filename.

(** The visited set stays within the page bound. *)
Definition visited_within_max_pages (env : Env) (cfg : Config) : Prop :=
  forall N, cfg_max_pages cfg = Some N ->
            Z.of_nat (size (visited_urls (crawl env cfg (init cfg)))) <= N.

(** Fewer URLs are fetched, and fewer records made, than the page bound. *)
Definition fetched_below_max_pages (env : Env) (cfg : Config) : Prop :=
  forall N, cfg_max_pages cfg = Some N ->
    Z.of_nat (length (requests (trace (crawl env cfg (init cfg))))) < N /\
    Z.of_nat (length (data (crawl env cfg (init cfg)))) < N.

(** [url] ends, whatever the case of its letters, with one of the
    configured extensions. *)
Definition ends_with_ignored (cfg : Config) (url : string) : bool :=
  existsb (λ ext, PyStr.endswith (PyStr.lower url) (PyStr.lower ext))
          (ignore_extensions cfg).

(** No record of the crawl has a URL with an ignored extension. *)
Definition no_ignored_record (env : Env) (cfg : Config) : Prop :=
  forall r, r ∈ data (crawl env cfg (init cfg)) ->
            ends_with_ignored cfg (pd_url r) = false.



(** A URL is acceptable in the queue when it is the seed or passed
    [is_valid_url]. *)
Definition seed_or_valid (env : Env) (cfg : Config) (url : string) : Prop :=
  url = start_url cfg \/ is_valid_url env cfg url = true.

(** What holds of the visited set [v], the queue [q], the records [d] and
    the trace [tr] of a crawler all along a crawl. *)
Record Inv (env : Env) (cfg : Config) (v : gset string) (q : list string)
    (d : list PageData) (tr : list Event) : Prop := mkInv {
  inv_visited : v = list_to_set (visits tr);
  inv_nodup : NoDup (visits tr);
  inv_sub : sublist (requests tr) (visits tr);
  inv_pred : forall i u, tr !! i = Some (EvRequest u) ->
               exists j, i = S j /\ tr !! j = Some (EvVisit u);
  inv_enq : forall i u, tr !! i = Some (EvEnqueue u) -> u ∉ visits (take i tr);
  inv_budget : forall i u, tr !! i = Some (EvRequest u) ->
               max_pages_reached cfg (length (visits (take i tr))) = false;
  inv_count : forall N, cfg_max_pages cfg = Some N ->
               Z.of_nat (length (requests tr)) <= Z.max 0 (N - 1);
  inv_data_len : (length d <= length (requests tr))%nat;
  inv_data_url : forall r, r ∈ d -> pd_url r ∈ requests tr;
  inv_queue_ok : forall u, u ∈ q -> seed_or_valid env cfg u;
  inv_visits_ok : forall u, u ∈ visits tr -> seed_or_valid env cfg u
}.

Definition Inv_of (env : Env) (cfg : Config) (st : Crawler) : Prop :=
  Inv env cfg (visited_urls st) (urls_to_visit st) (data st) (trace st).

(** No occurrence of [sp] in [x +:+ tail] starts inside [x]. *)
Fixpoint no_match_within (sp x tail : string) : Prop :=
  match x with
  | EmptyString => True
  | String c x' =>
      String.prefix sp (String c x' +:+ tail) = false /\ no_match_within sp x' tail
  end.

(** ** The command line of the crawler *)





(** ** The data organizer ([cleandata.py]) *)

Module CleanData.

(** [s.lstrip(c)] and [s.strip(c)] for one character. *)
Fixpoint lstrip (c : ascii) (s : string) : string :=
  match s with
  | EmptyString => EmptyString
  | String d s' => if Ascii.eqb c d then lstrip c s' else s
  end.

(** The text without its trailing run of [c]: a character is kept when it
    is not [c] or when something is kept after it. *)
Fixpoint rstrip (c : ascii) (s : string) : string :=
  match s with
  | EmptyString => EmptyString
  | String d s' =>
      match rstrip c s' with
      | EmptyString => if Ascii.eqb c d then EmptyString else String d EmptyString
      | rest => String d rest
      end
  end.

Definition strip (c : ascii) (s : string) : string := rstrip c (lstrip c s).

(** [s.replace(a, b)] for single characters. *)
Fixpoint replace (a b : ascii) (s : string) : string :=
  match s with
  | EmptyString => EmptyString
  | String d s' => String (if Ascii.eqb a d then b else d) (replace a b s')
  end.

(** The ASCII members of the class [[\w\-]]: letters, digits, underscore,
    hyphen. *)
Definition is_word_or_hyphen (c : ascii) : bool :=
  let n := nat_of_ascii c in
  (((48 <=? n) && (n <=? 57)) || ((65 <=? n) && (n <=? 90))
   || ((97 <=? n) && (n <=? 122)) || (n =? 95) || (n =? 45))%nat.

Definition is_ascii (c : ascii) : bool := (nat_of_ascii c <? 128)%nat.

(** The class [[\w\-]] on a [str]: the pattern is a text pattern, so [\w]
    also matches the letters and digits outside ASCII; [unicode_word] says
    which characters outside ASCII these are. *)
Definition in_class (unicode_word : ascii -> bool) (c : ascii) : bool :=
  if is_ascii c then is_word_or_hyphen c else unicode_word c.

(** [re.sub(r'[^\w\-]', '_', s)]. *)
Fixpoint sub_non_word (unicode_word : ascii -> bool) (s : string) : string :=
  match s with
  | EmptyString => EmptyString
  | String d s' =>
      String (if in_class unicode_word d then d else "_"%char)
             (sub_non_word unicode_word s')
  end.

(** [s[:n]]. *)
Fixpoint str_take (n : nat) (s : string) : string :=
  match n, s with
  | S n', String d s' => String d (str_take n' s')
  | _, _ => EmptyString
  end.

(** [clean_filename]; [urlparse] gives the [netloc] and the [path] of a
    URL it accepts (on a URL it rejects, the call raises before anything
    else is done). *)
Definition clean_filename (unicode_word : ascii -> bool)
    (urlparse : string -> string * string) (url : string) : string :=
  let '(hostname, path0) := urlparse url in
  let path := strip "/" path0 in
  if String.eqb path "" then replace "." "_" hostname
  else
    let filename := sub_non_word unicode_word (hostname +:+ "_" +:+ path) in
    if (100 <? String.length filename)%nat then str_take 100 filename
    else filename.

(** [c not in s]. *)
Fixpoint lacks (c : ascii) (s : string) : Prop :=
  match s with
  | EmptyString => True
  | String d s' => d <> c /\ lacks c s'
  end.

(** Every character of [s] satisfies [p]. *)
Fixpoint all_chars (p : ascii -> bool) (s : string) : Prop :=
  match s with
  | EmptyString => True
  | String d s' => p d = true /\ all_chars p s'
  end.

(** A character that is a letter, a digit, an underscore or a hyphen
    whenever it is an ASCII character. *)
Definition word_or_hyphen_if_ascii (c : ascii) : bool :=
  is_word_or_hyphen c || negb (is_ascii c).

(** The letters with an accent of Latin-1, as a sample of the word
    characters outside ASCII. *)
Definition latin1_letter (c : ascii) : bool :=
  let n := nat_of_ascii c in
  ((192 <=? n) && negb (n =? 215) && negb (n =? 247))%nat.

End CleanData.

(** ** Further notions used in the properties *)

(** A configuration that ignores the one extension [.PDF], written in
    upper case. *)
Definition upper_case_config : Config :=
  mkConfig Site.A None None None None None None (Some [".PDF"]) None None None None.

(** An upper-case ASCII letter, and a text that holds one. *)
Definition is_upper (c : ascii) : bool :=
  let n := nat_of_ascii c in ((65 <=? n) && (n <=? 90))%nat.

Fixpoint has_upper (s : string) : bool :=
  match s with
  | EmptyString => false
  | String c s' => is_upper c || has_upper s'
  end.

(** * Properties *)

(** ** The model on concrete inputs *)

Example split_three : PyStr.split " | " "a | b | c" = ["a"; "b"; "c"].
Proof. reflexivity. Qed.

Example split_empty : PyStr.split " | " "" = [""].
Proof. reflexivity. Qed.

Example split_early_match : PyStr.split " | " "a | | b" = ["a"; "| b"].
Proof. reflexivity. Qed.

Example endswith_lowered :
  PyStr.endswith (PyStr.lower "http://example.com/A.PDF") ".pdf" = true.
Proof. reflexivity. Qed.

Example join_of_a_string : py_join sep (HStr "ab") = "a | b".
Proof. reflexivity. Qed.

Example normalize_ws_runs : normalize_ws "  two   words
 here " = "two words here".
Proof. reflexivity. Qed.

(** A successful fetch: one request, then the delay. *)
Example fetch_page_A :
  let cfg := Site.config Site.A 3 None in
  (get_page_content Site.env cfg Site.A (init cfg)).1 = Some "page A" /\
  trace (get_page_content Site.env cfg Site.A (init cfg)).2
  = [EvRequest Site.A; EvSleep 1] /\
  sleeps (trace (get_page_content Site.env cfg Site.A (init cfg)).2) = [1%Q].
Proof. repeat split; vm_compute; reflexivity. Qed.

(** The whole site, batches in order: breadth first from [A]. *)
Example crawl_site_in_order :
  map pd_url (data Site.crawled) = [Site.A; Site.B; Site.C; Site.D; Site.E] /\
  enqueues (trace Site.crawled) = [Site.B; Site.C; Site.D; Site.E] /\
  current_depth Site.crawled = 3.
Proof. repeat split; vm_compute; reflexivity. Qed.

(** The same with shuffled batches: the order within a depth changes, the
    pages fetched do not. *)
Example crawl_site_shuffled :
  let cfg := Site.config_shuffled Site.A 3 None in
  requests (trace (crawl Site.env cfg (init cfg)))
  = [Site.A; Site.C; Site.B; Site.D; Site.E].
Proof. vm_compute. reflexivity. Qed.

(** A seed that cannot be fetched: it is marked visited, nothing more. *)
Example crawl_seed_down :
  let cfg := Site.config "http://example.com/down" 3 None in
  trace (crawl Site.env cfg (init cfg))
  = [EvVisit "http://example.com/down"; EvRequest "http://example.com/down"] /\
  data (crawl Site.env cfg (init cfg)) = [].
Proof. split; vm_compute; reflexivity. Qed.

(** The file written by the export of the one-record crawler. *)
Example export_terse :
  files (export_to_csv Site.env "out.csv" Site.terse).1 !! "out.csv"
  = Some [fieldnames;
          [Site.A; "page A"; ""; "A"; ""; ""; "page A"; "2025-04-27 12:00:00"; ""]].
Proof. vm_compute. reflexivity. Qed.

(** ** Strings *)

Section StringFacts.

Implicit Types s t piece rest : string.

Lemma append_nil_l s : "" +:+ s = s.
Proof. reflexivity. Qed.

Lemma append_cons c s t : String c s +:+ t = String c (s +:+ t).
Proof. reflexivity. Qed.

Lemma append_nil_r s : s +:+ "" = s.
Proof. induction s as [|c s IH]; [done | by rewrite append_cons, IH]. Qed.

Lemma append_assoc s t u : (s +:+ t) +:+ u = s +:+ (t +:+ u).
Proof. induction s as [|c s IH]; [done | by rewrite !append_cons, IH]. Qed.

Lemma prefix_nil s : String.prefix "" s = true.
Proof. by destruct s. Qed.

Lemma prefix_cons a s b t :
  String.prefix (String a s) (String b t) = bool_decide (a = b) && String.prefix s t.
Proof.
  change (String.prefix (String a s) (String b t))
    with (match ascii_dec a b with left _ => String.prefix s t | right _ => false end).
  destruct (ascii_dec a b); case_bool_decide; done.
Qed.

Lemma prefix_append sp rest : String.prefix sp (sp +:+ rest) = true.
Proof.
  induction sp as [|c sp IH]; [apply prefix_nil |].
  rewrite append_cons, prefix_cons, IH. by rewrite bool_decide_eq_true_2.
Qed.

(** Skipping over a matched delimiter. *)
Lemma split_from_skip sp y piece rest :
  PyStr.split_from sp (String.length y) piece (y +:+ rest)
  = PyStr.split_from sp 0 piece rest.
Proof.
  induction y as [|c y IH]; [done |]. rewrite append_cons. exact IH.
Qed.

(** A text without the delimiter is one piece. *)
Lemma split_from_no_sep sp piece s :
  PyStr.contains sp s = false ->
  PyStr.split_from sp 0 piece s = [piece +:+ s].
Proof.
  revert piece. induction s as [|c s IH]; intros piece Hc.
  - cbn [PyStr.split_from]. by rewrite append_nil_r.
  - cbn [PyStr.contains] in Hc. apply orb_false_iff in Hc as [Hp Hc].
    cbn [PyStr.split_from]. rewrite Hp, (IH _ Hc).
    by rewrite append_assoc, append_cons.
Qed.

(** Then the first piece of [x +:+ sp +:+ rest] is [x]. *)
Lemma split_from_first_piece c sp' x piece rest :
  no_match_within (String c sp') x (String c sp' +:+ rest) ->
  PyStr.split_from (String c sp') 0 piece (x +:+ String c sp' +:+ rest)
  = (piece +:+ x) :: PyStr.split_from (String c sp') 0 "" rest.
Proof.
  set (sp := String c sp'). revert piece. induction x as [|d x IH]; intros piece Hx.
  - rewrite append_nil_r, append_nil_l.
    pose proof (prefix_append sp rest) as Hp.
    subst sp. rewrite append_cons in Hp |- *.
    cbn [PyStr.split_from]. rewrite Hp. f_equal.
    replace (String.length (String c sp') - 1)%nat with (String.length sp')
      by (simpl; lia).
    apply split_from_skip.
  - destruct Hx as [Hp Hx]. rewrite append_cons in Hp |- *.
    cbn [PyStr.split_from]. rewrite Hp, (IH _ Hx).
    by rewrite append_assoc, append_cons.
Qed.

(** For the delimiter of the export, a text that neither contains it nor
    ends with its first two characters leaves no room for an early match. *)
Lemma no_early_match x rest :
  PyStr.contains sep x = false ->
  PyStr.endswith x " |" = false ->
  no_match_within sep x (sep +:+ rest).
Proof.
  induction x as [|c x IH]; [done |].
  intros Hc He. cbn [PyStr.contains PyStr.endswith] in Hc, He.
  apply orb_false_iff in Hc as [Hp Hc]. apply orb_false_iff in He as [Hq He].
  split; [| by apply IH].
  unfold sep in *. rewrite append_cons, prefix_cons in *.
  case_bool_decide as Hsp; [subst c; cbn [andb] in * | done].
  destruct x as [|d x]; [reflexivity |].
  rewrite append_cons, prefix_cons in *.
  case_bool_decide as Hbar; [subst d; cbn [andb] in * | done].
  destruct x as [|e x]; [discriminate Hq |].
  rewrite append_cons, prefix_cons, prefix_nil in *. exact Hp.
Qed.

Lemma join_cons sp x y l :
  PyStr.join sp (x :: y :: l) = x +:+ sp +:+ PyStr.join sp (y :: l).
Proof. done. Qed.

(** Splitting a join gives the parts back, when no part contains the
    delimiter and no part but the last ends with [" |"]. *)
Lemma split_join (l : list string) :
  l <> [] ->
  Forall (λ text, PyStr.contains sep text = false) l ->
  (forall i text, l !! i = Some text -> (S i < length l)%nat ->
                  PyStr.endswith text " |" = false) ->
  PyStr.split sep (PyStr.join sep l) = l.
Proof.
  induction l as [|x l IH]; [done |]. intros _ Hall Hend.
  apply Forall_cons in Hall as [Hx Hall].
  destruct l as [|y l].
  - simpl. unfold PyStr.split. by rewrite split_from_no_sep.
  - rewrite join_cons. unfold PyStr.split.
    etrans; [apply (split_from_first_piece " " "| " x "" (PyStr.join sep (y :: l))) |].
    + apply (no_early_match x); [done |]. apply (Hend 0%nat); [done | simpl; lia].
    + rewrite append_nil_l. f_equal. apply IH; [done | done |].
      intros i text Hi Hlt. apply (Hend (S i)); [done | simpl in *; lia].
Qed.

End StringFacts.

(** C9, as amended. For a record whose heading entry is a non-empty list
    of texts, none of which contains the delimiter [" | "] and none of which
    but the last ends with [" |"], splitting the exported cell on the
    delimiter gives the list back; this holds for each of [h1], [h2] and
    [h3_plus]. *)
Theorem export_split_round_trip (item : PageData) (l : list string) :
  l <> [] ->
  Forall (λ text, PyStr.contains sep text = false) l ->
  (forall i text, l !! i = Some text -> (S i < length l)%nat ->
                  PyStr.endswith text " |" = false) ->
  (pd_h1 item = HList l -> PyStr.split sep (cell (pd_h1 (flatten_item item))) = l) /\
  (pd_h2 item = HList l -> PyStr.split sep (cell (pd_h2 (flatten_item item))) = l) /\
  (pd_h3_plus item = HList l ->
   PyStr.split sep (cell (pd_h3_plus (flatten_item item))) = l).
Proof.
  intros Hne Hall Hend.
  repeat split; intros Hl; unfold flatten_item;
    cbn [set_h1 set_h2 set_h3_plus pd_h1 pd_h2 pd_h3_plus cell];
    rewrite Hl; by apply split_join.
Qed.

Lemma export_split_round_trip_witness :
  let item := mkPageData Site.A "page A" "" (HList ["Welcome"; "News"])
                         (HList ["Welcome"; "News"]) (HList ["Welcome"; "News"])
                         "page A" "2025-04-27 12:00:00" "" in
  PyStr.split sep (cell (pd_h1 (flatten_item item))) = ["Welcome"; "News"].
Proof.
  intros item.
  refine (proj1 (export_split_round_trip item ["Welcome"; "News"] _ _ _) eq_refl).
  - discriminate.
  - repeat constructor.
  - intros [|[|i]] text Hi Hlt; simpl in *; [by inversion Hi | lia | lia].
Defined.

(** C9 as worded fails: the empty heading list is exported as the empty
    string, which splits into one empty text; and a text ending in [" |"]
    forms the delimiter with the separator that follows it. *)
Lemma heading_round_trip_fails :
  ~ heading_round_trip [] /\ ~ heading_round_trip ["a |"; "b"].
Proof.
  split; intros H; specialize (H ltac:(repeat constructor)); vm_compute in H;
    discriminate H.
Qed.

(** ** Export *)

Section ExportFacts.

Variable env : Env.

(** Writing rows touches neither the records nor the log. *)
Lemma writerows_frame filename rows st :
  data (writerows env filename rows st).1 = data st /\
  log (writerows env filename rows st).1 = log st.
Proof.
  revert st. induction rows as [|row rows IH]; intros st; [done |].
  cbn [writerows]. destruct (io_write env (tick st) filename); [done |].
  destruct (IH (set_files (<[filename := default [] (files (next_tick st) !! filename)
                                          ++ [row]]> (files (next_tick st)))
                          (next_tick st))) as [Hd Hl].
  split; [exact Hd | exact Hl].
Qed.

(** When no write fails, all the rows are appended to the file. *)
Lemma writerows_ok filename rows st written :
  (forall t, io_write env t filename = None) ->
  files st !! filename = Some written ->
  (writerows env filename rows st).2 = Returned () /\
  files (writerows env filename rows st).1 !! filename = Some (written ++ rows).
Proof.
  intros Hw. revert st written.
  induction rows as [|row rows IH]; intros st written Hf.
  - simpl. by rewrite app_nil_r.
  - cbn [writerows]. rewrite Hw.
    match goal with |- context [writerows env filename rows ?s] =>
      destruct (IH s (written ++ [row])) as [Hr Hfiles] end.
    { cbn. rewrite Hf. apply lookup_insert_eq. }
    split; [exact Hr |]. rewrite Hfiles. by rewrite <- app_assoc.
Qed.

Lemma flatten_item_flattened item : flattened item (flatten_item item).
Proof. by repeat split. Qed.

Lemma map_flatten_item_flattened d : Forall2 flattened d (map flatten_item d).
Proof.
  induction d as [|item d IH]; constructor; [apply flatten_item_flattened | exact IH].
Qed.

(** The records after the [try] of the export: flattened if and only if the
    file could be opened. *)
Lemma export_to_csv_try_data filename st :
  data (export_to_csv_try env filename st).1
  = match io_open env (tick st) filename with
    | None => map flatten_item (data st)
    | Some _ => data st
    end.
Proof.
  unfold export_to_csv_try. destruct (io_open env (tick st) filename); [done |].
  match goal with |- context [writerows env filename ?rows ?s] =>
    pose proof (writerows_frame filename rows s) as [Hd _];
    destruct (writerows env filename rows s) as [s' [e|[]]] end;
  exact Hd.
Qed.

Lemma export_to_csv_data filename st :
  data st <> [] ->
  data (export_to_csv env filename st).1
  = match io_open env (tick st) filename with
    | None => map flatten_item (data st)
    | Some _ => data st
    end.
Proof.
  intros Hne. unfold export_to_csv.
  destruct (data st) as [|item d] eqn:Hd; [done |].
  rewrite <- Hd, <- export_to_csv_try_data.
  by destruct (export_to_csv_try env filename st) as [s' [e|[]]].
Qed.

(** With a file that opens and takes every write, the file holds the header
    and one row per flattened record. *)
Lemma export_to_csv_file filename st :
  data st <> [] ->
  io_open env (tick st) filename = None ->
  (forall t, io_write env t filename = None) ->
  files (export_to_csv env filename st).1 !! filename
  = Some (fieldnames :: map row_of (map flatten_item (data st))).
Proof.
  intros Hne Hopen Hw. unfold export_to_csv.
  destruct (data st) as [|item d] eqn:Hd; [done |]. rewrite <- Hd.
  unfold export_to_csv_try. rewrite Hopen.
  match goal with |- context [writerows env filename ?rows ?s] =>
    destruct (writerows_ok filename rows s [] Hw) as [Hr Hf];
    [apply lookup_insert_eq |];
    destruct (writerows env filename rows s) as [s' [e|[]]] end;
  [discriminate Hr | exact Hf].
Qed.

(** Joining the characters of a text [s] gives a text of length
    [4 * length s - 3]: longer than [s] as soon as [s] has two characters. *)
Lemma length_join_chars s :
  String.length (PyStr.join sep (PyStr.chars s))
  = (4 * String.length s - 3)%nat.
Proof.
  induction s as [|c s IH]; [done |].
  destruct s as [|d s]; [done |].
  cbn [PyStr.chars] in *. rewrite join_cons.
  rewrite !append_cons. cbn [String.length] in *. rewrite append_nil_l.
  unfold sep at 1. rewrite !append_cons, append_nil_l. cbn [String.length].
  rewrite IH. lia.
Qed.

Lemma join_chars_neq s :
  (2 <= String.length s)%nat -> PyStr.join sep (PyStr.chars s) <> s.
Proof.
  intros Hlen Heq. apply (f_equal String.length) in Heq.
  rewrite length_join_chars in Heq. lia.
Qed.

(** The row of a record with a long heading changes when the record is
    flattened once more. *)
Lemma row_of_flatten_twice item :
  long_heading item ->
  row_of (flatten_item (flatten_item item)) <> row_of (flatten_item item).
Proof.
  intros Hlong Heq.
  pose proof (f_equal (λ row, row !! 3%nat) Heq) as H1.
  pose proof (f_equal (λ row, row !! 4%nat) Heq) as H2.
  pose proof (f_equal (λ row, row !! 5%nat) Heq) as H3.
  unfold row_of, flatten_item in H1, H2, H3.
  cbn [lookup list_lookup set_h1 set_h2 set_h3_plus pd_h1 pd_h2 pd_h3_plus cell
       py_join] in H1, H2, H3.
  injection H1 as H1. injection H2 as H2. injection H3 as H3.
  destruct Hlong as [H|[H|H]]; eapply join_chars_neq; eauto.
Qed.

End ExportFacts.

(** C8, as amended. [export_to_csv] returns [None] to its caller on every
    path, never a boolean and never a raised fault. With no record it logs a
    warning and touches no file; when opening or writing the file raises,
    the exception is caught and logged as an error. *)
Theorem export_to_csv_returns_none (env : Env) (filename : string) (st : Crawler) :
  (export_to_csv env filename st).2 = Returned PyNone /\
  (data st = [] ->
   files (export_to_csv env filename st).1 = files st /\
   tick (export_to_csv env filename st).1 = tick st /\
   log (export_to_csv env filename st).1 = log st ++ [(WARNING, "No data to export")]) /\
  (forall e, data st <> [] ->
     (export_to_csv_try env filename st).2 = Raised e ->
     log (export_to_csv env filename st).1
     = log (export_to_csv_try env filename st).1
       ++ [(ERROR, "Error exporting data to CSV: " +:+ e)]).
Proof.
  unfold export_to_csv. repeat split.
  - destruct (data st); [done |].
    by destruct (export_to_csv_try env filename st) as [s' [e|[]]].
  - by rewrite H.
  - by rewrite H.
  - by rewrite H.
  - intros e Hne Hr. destruct (data st); [done |].
    destruct (export_to_csv_try env filename st) as [s' [e'|[]]]; [| done].
    simpl in Hr. by injection Hr as ->.
Qed.

(** C8 as worded fails: when a write to the file fails, and when the file
    cannot be opened, the caller receives [None], not [False]. *)
Lemma export_surfaces_failure_fails :
  ~ export_surfaces_failure Site.env "full.csv" Site.crawled /\
  ~ export_surfaces_failure Site.env "/" Site.crawled.
Proof.
  split; intros H.
  - specialize (H "OSError" ltac:(vm_compute; reflexivity)).
    vm_compute in H. discriminate H.
  - specialize (H "IsADirectoryError" ltac:(vm_compute; reflexivity)).
    vm_compute in H. discriminate H.
Qed.

(** C10, as amended. When the data is not empty and the output file can be
    opened, the export leaves every record flattened in place: its three
    heading entries are the [" | "]-joins of their previous values and its
    other entries are unchanged, whether the writes then succeed or not. A
    second export that opens the file flattens the joined strings again,
    character by character; and with a file that takes every write, what
    it writes differs from what the first export wrote as soon as one
    record has a heading entry that is, once joined, longer than one
    character. *)
Theorem export_to_csv_flattens_in_place (env : Env) (filename : string)
    (st : Crawler) :
  data st <> [] ->
  io_open env (tick st) filename = None ->
  data (export_to_csv env filename st).1 = map flatten_item (data st) /\
  Forall2 flattened (data st) (data (export_to_csv env filename st).1) /\
  (io_open env (tick (export_to_csv env filename st).1) filename = None ->
   Forall2 flattened (data (export_to_csv env filename st).1)
           (data (export_to_csv env filename (export_to_csv env filename st).1).1) /\
   ((forall t, io_write env t filename = None) ->
    (exists item, item ∈ data st /\ long_heading item) ->
    files (export_to_csv env filename (export_to_csv env filename st).1).1 !! filename
    <> files (export_to_csv env filename st).1 !! filename)).
Proof.
  intros Hne Hopen.
  assert (data (export_to_csv env filename st).1 = map flatten_item (data st)) as Hd.
  { by rewrite export_to_csv_data, Hopen. }
  assert (data (export_to_csv env filename st).1 <> []) as Hne1.
  { rewrite Hd. by destruct (data st). }
  split; [exact Hd |]. split; [rewrite Hd; apply map_flatten_item_flattened |].
  intros Hopen1. split.
  - rewrite (export_to_csv_data _ _ (export_to_csv env filename st).1 Hne1), Hopen1.
    apply map_flatten_item_flattened.
  - intros Hw (item & Hin & Hlong).
    rewrite (export_to_csv_file _ _ _ Hne1 Hopen1 Hw).
    rewrite (export_to_csv_file _ _ _ Hne Hopen Hw), Hd.
    intros Heq. injection Heq as Heq.
    rewrite <- !list_fmap_compose in Heq.
    apply list_elem_of_lookup in Hin as [i Hi].
    apply (f_equal (λ rows, rows !! i)) in Heq.
    rewrite !list_lookup_fmap, Hi in Heq. apply (inj Some) in Heq.
    by apply (row_of_flatten_twice item).
Qed.

Lemma export_to_csv_flattens_in_place_witness :
  data (export_to_csv Site.env "out.csv" Site.crawled).1
  = map flatten_item (data Site.crawled).
Proof.
  refine (proj1 (export_to_csv_flattens_in_place Site.env "out.csv" Site.crawled _ _)).
  - vm_compute. discriminate.
  - vm_compute. reflexivity.
Defined.

(** C10 as worded fails: when the file cannot be opened the records keep
    their lists; and records with terse headings are written identically by
    a second export. *)
Lemma export_mutates_and_differs_fails :
  ~ export_mutates_and_differs Site.env "/" Site.crawled /\
  ~ export_mutates_and_differs Site.env "out.csv" Site.terse.
Proof.
  split; intros H.
  - destruct (H ltac:(vm_compute; discriminate)) as [Hf _].
    vm_compute in Hf. inversion Hf as [|? ? ? ? Hflat _]; subst.
    destruct Hflat as [Hh _]. discriminate Hh.
  - destruct (H ltac:(vm_compute; discriminate)) as [_ Hdiff].
    apply Hdiff. vm_compute. reflexivity.
Qed.

(** ** The fetch *)

Section FetchFacts.

Variable env : Env.
Variable cfg : Config.

(** The fetch leaves the crawler's own attributes alone. *)
Lemma get_page_content_frame url st :
  let st' := (get_page_content env cfg url st).2 in
  visited_urls st' = visited_urls st /\ urls_to_visit st' = urls_to_visit st /\
  current_depth st' = current_depth st /\ data st' = data st /\
  files st' = files st.
Proof.
  unfold get_page_content, get_page_content_try, can_fetch, sleep. cbn [negb].
  destruct (use_selenium cfg).
  - destruct (driver_get env _ url); [done |].
    destruct (Qle_bool 0 (selenium_wait cfg)); [| done].
    destruct (driver_page_source env _); [done |].
    by destruct (Qle_bool 0 (request_delay cfg)).
  - destruct (session_get env _ url) as [e|[status text]]; [done |].
    destruct (raise_for_status status); [done |].
    by destruct (Qle_bool 0 (request_delay cfg)).
Qed.

(** Its effects are one request, then sleeps only. *)
Lemma get_page_content_trace url st :
  exists ds, trace (get_page_content env cfg url st).2
             = trace st ++ EvRequest url :: map EvSleep ds.
Proof.
  unfold get_page_content, get_page_content_try, can_fetch, sleep. cbn [negb].
  destruct (use_selenium cfg).
  - destruct (driver_get env _ url); [by exists [] |].
    destruct (Qle_bool 0 (selenium_wait cfg)); [| by exists []].
    destruct (driver_page_source env _).
    + exists [selenium_wait cfg]. cbn. by rewrite <- app_assoc.
    + destruct (Qle_bool 0 (request_delay cfg)).
      * exists [selenium_wait cfg; request_delay cfg]. cbn. by rewrite <- !app_assoc.
      * exists [selenium_wait cfg]. cbn. by rewrite <- app_assoc.
  - destruct (session_get env _ url) as [e|[status text]]; [by exists [] |].
    destruct (raise_for_status status); [by exists [] |].
    destruct (Qle_bool 0 (request_delay cfg)); [| by exists []].
    exists [request_delay cfg]. cbn. by rewrite <- app_assoc.
Qed.

(** A fetch that returns content ends with the configured delay. *)
Lemma get_page_content_success_delay url st html :
  (get_page_content env cfg url st).1 = Some html ->
  delay_before_return env cfg url st.
Proof.
  unfold delay_before_return, get_page_content, get_page_content_try, can_fetch,
    sleep.
  cbn [negb]. destruct (use_selenium cfg).
  - destruct (driver_get env _ url); [done |].
    destruct (Qle_bool 0 (selenium_wait cfg)); [| done].
    destruct (driver_page_source env _); [done |].
    destruct (Qle_bool 0 (request_delay cfg)); [| done]. intros _. by eexists.
  - destruct (session_get env _ url) as [e|[status text]]; [done |].
    destruct (raise_for_status status); [done |].
    destruct (Qle_bool 0 (request_delay cfg)); [| done]. intros _. by eexists.
Qed.

(** A request that raises, or is answered with an error status, ends the
    fetch at once: nothing is slept. *)
Lemma get_page_content_failure_no_delay url st :
  use_selenium cfg = false ->
  match session_get env (tick st) url with
  | Raised _ => True
  | Returned (status, _) => raise_for_status status = true
  end ->
  (get_page_content env cfg url st).1 = None /\
  trace (get_page_content env cfg url st).2 = trace st ++ [EvRequest url].
Proof.
  intros Hsel Hfail.
  unfold get_page_content, get_page_content_try, can_fetch. cbn [negb].
  rewrite Hsel. cbn [tick logger emit next_tick].
  destruct (session_get env (tick st) url) as [e|[status text]]; [done |].
  by rewrite Hfail.
Qed.

End FetchFacts.

(** C5, on the code. The request to a server that is down raises, and the
    one to a missing page is answered 404: in both cases [get_page_content]
    returns [None] with the request as its only effect. No delay is slept,
    where the claim has the configured delay precede every return. *)
Theorem get_page_content_failure_skips_delay :
  let cfg := Site.config Site.A 3 None in
  let down := "http://example.com/down" in
  let missing := "http://example.com/missing" in
  (get_page_content Site.env cfg down (init cfg)).1 = None /\
  trace (get_page_content Site.env cfg down (init cfg)).2 = [EvRequest down] /\
  ~ delay_before_return Site.env cfg down (init cfg) /\
  (get_page_content Site.env cfg missing (init cfg)).1 = None /\
  trace (get_page_content Site.env cfg missing (init cfg)).2 = [EvRequest missing] /\
  ~ delay_before_return Site.env cfg missing (init cfg).
Proof.
  repeat split; try (vm_compute; reflexivity).
  - intros [earlier H]. vm_compute in H.
    destruct earlier as [|e [|e' earlier]]; discriminate H.
  - intros [earlier H]. vm_compute in H.
    destruct earlier as [|e [|e' earlier]]; discriminate H.
Qed.

(** ** Link extraction *)

Section LinkFacts.

Variable env : Env.
Variable cfg : Config.

Lemma extract_links_loop_filter st base_url a_tags links :
  extract_links_loop env cfg st base_url a_tags links
  = links ++ List.filter (link_accepted env cfg st)
                         (map (absolute_url_of env cfg base_url) a_tags).
Proof.
  revert links. induction a_tags as [|href rest IH]; intros links.
  - simpl. by rewrite app_nil_r.
  - cbn [extract_links_loop map List.filter]. fold (link_accepted env cfg st
      (absolute_url_of env cfg base_url href)).
    destruct (link_accepted env cfg st _); rewrite IH; [| done].
    by rewrite <- app_assoc.
Qed.

Lemma extract_links_filter st soup base_url :
  extract_links env cfg st soup base_url
  = List.filter (link_accepted env cfg st)
                (map (absolute_url_of env cfg base_url) (soup_a_href soup)).
Proof. unfold extract_links. by rewrite extract_links_loop_filter. Qed.

(** Every link returned is valid, unvisited and not pending. *)
Lemma extract_links_accepted st soup base_url url :
  url ∈ extract_links env cfg st soup base_url ->
  (is_valid_url env cfg url = true) /\ (url ∉ visited_urls st)
  /\ (url ∉ urls_to_visit st).
Proof.
  rewrite extract_links_filter, list_elem_of_In, filter_In.
  intros [_ Hacc]. unfold link_accepted in Hacc.
  apply andb_true_iff in Hacc as [Hacc Hq]. apply andb_true_iff in Hacc as [Hv Hs].
  apply negb_true_iff, bool_decide_eq_false in Hq, Hs. done.
Qed.

End LinkFacts.

(** *** With the exceptions of [urljoin] and [urlparse] *)

Section LinkRuns.

Variable env : Env.
Variable cfg : Config.





(** And raises when one does not. *)
Lemma extract_links_loop_run_raises st base_url a_tags links :
  Exists (λ href, urljoin_error env base_url href <> None) a_tags ->
  exists e, extract_links_loop_run env cfg st base_url a_tags links = Raised e.
Proof.
  intros Hex. revert links.
  induction Hex as [href rest Hbad|href rest _ IH]; intros links;
    cbn [extract_links_loop_run].
  - destruct (urljoin_error env base_url href) as [e|]; [by exists e | done].
  - destruct (urljoin_error env base_url href) as [e|]; [by exists e |].
    destruct (is_valid_url_run env cfg _) as [e|valid]; [by exists e |].
    destruct (_ && _ && _); apply IH.
Qed.

End LinkRuns.




(** An anchor that [urljoin] cannot parse ends the call with its
    [ValueError], whatever the other anchors are. *)
Example extract_links_bad_href :
  let cfg := Site.config Site.A 3 None in
  extract_links_loop_run Site.env cfg (init cfg) Site.A ["http://[bad"; Site.D] []
  = Raised "ValueError: Invalid IPv6 URL".
Proof. reflexivity. Qed.

(** ** Traces *)

Section TraceFacts.

Implicit Types tr x : list Event.
Implicit Types u : string.

Lemma visits_app tr x : visits (tr ++ x) = visits tr ++ visits x.
Proof. apply omap_app. Qed.

Lemma requests_app tr x : requests (tr ++ x) = requests tr ++ requests x.
Proof. apply omap_app. Qed.

Lemma enqueues_app tr x : enqueues (tr ++ x) = enqueues tr ++ enqueues x.
Proof. apply omap_app. Qed.

Lemma visits_sleeps ds : visits (map EvSleep ds) = [].
Proof. by induction ds. Qed.

Lemma requests_sleeps ds : requests (map EvSleep ds) = [].
Proof. by induction ds. Qed.

Lemma enqueues_sleeps ds : enqueues (map EvSleep ds) = [].
Proof. by induction ds. Qed.

Lemma visits_enqueues l : visits (map EvEnqueue l) = [].
Proof. by induction l. Qed.

Lemma requests_enqueues l : requests (map EvEnqueue l) = [].
Proof. by induction l. Qed.

Lemma enqueues_enqueues l : enqueues (map EvEnqueue l) = l.
Proof. induction l as [|u l IH]; [done |]. cbn. by rewrite <- IH at 2. Qed.

Lemma visits_take_enqueues l k : visits (take k (map EvEnqueue l)) = [].
Proof. rewrite <- fmap_take. apply visits_enqueues. Qed.

Lemma lookup_sleeps ds k e : map EvSleep ds !! k = Some e -> exists d, e = EvSleep d.
Proof.
  rewrite list_lookup_fmap. destruct (ds !! k) as [d|]; [| done].
  intros [= <-]. by exists d.
Qed.

Lemma lookup_enqueues l k e :
  map EvEnqueue l !! k = Some e -> exists u, e = EvEnqueue u /\ u ∈ l.
Proof.
  rewrite list_lookup_fmap. destruct (l !! k) as [u|] eqn:Hk; [| done].
  intros [= <-]. exists u. split; [done |]. by eapply list_elem_of_lookup_2.
Qed.

Lemma visit_in_visits tr i u : tr !! i = Some (EvVisit u) -> u ∈ visits tr.
Proof.
  intros Hi. apply list_elem_of_omap. exists (EvVisit u).
  split; [by eapply list_elem_of_lookup_2 | done].
Qed.

Lemma request_in_trace tr u :
  u ∈ requests tr -> exists i, tr !! i = Some (EvRequest u).
Proof.
  intros Hu. apply list_elem_of_omap in Hu as (e & He & Hf).
  destruct e; try discriminate Hf. injection Hf as ->.
  by apply list_elem_of_lookup_1.
Qed.

(** A URL added once to the visited set has one place in the trace. *)
Lemma visit_index_unique tr i j u :
  NoDup (visits tr) ->
  tr !! i = Some (EvVisit u) -> tr !! j = Some (EvVisit u) -> i = j.
Proof.
  revert i j. induction tr as [|e tr IH]; intros i j Hnd Hi Hj; [done |].
  assert (NoDup (visits tr)) as Hnd'.
  { destruct e; cbn in Hnd; try done. by apply NoDup_cons in Hnd as [_ ?]. }
  destruct i as [|i], j as [|j]; cbn in Hi, Hj.
  - done.
  - injection Hi as ->. cbn in Hnd. apply NoDup_cons in Hnd as [Hnin _].
    destruct Hnin. by eapply visit_in_visits.
  - injection Hj as ->. cbn in Hnd. apply NoDup_cons in Hnd as [Hnin _].
    destruct Hnin. by eapply visit_in_visits.
  - f_equal. by apply IH.
Qed.

(** The three properties of a trace that speak of positions are kept when
    a chunk of events that has them locally is appended. *)
Lemma pred_app tr x :
  (forall i u, tr !! i = Some (EvRequest u) ->
     exists j, i = S j /\ tr !! j = Some (EvVisit u)) ->
  (forall k u, x !! k = Some (EvRequest u) ->
     exists j, k = S j /\ x !! j = Some (EvVisit u)) ->
  forall i u, (tr ++ x) !! i = Some (EvRequest u) ->
    exists j, i = S j /\ (tr ++ x) !! j = Some (EvVisit u).
Proof.
  intros Htr Hx i u Hi. apply lookup_app_Some in Hi as [Hi|[Hle Hi]].
  - destruct (Htr i u Hi) as (j & -> & Hj). exists j.
    split; [done |]. by apply lookup_app_l_Some.
  - destruct (Hx _ u Hi) as (j & Hk & Hj). exists (length tr + j)%nat.
    split; [lia |]. by rewrite lookup_app_r, Nat.add_comm, Nat.add_sub by lia.
Qed.

Lemma enq_app tr x :
  (forall i u, tr !! i = Some (EvEnqueue u) -> u ∉ visits (take i tr)) ->
  (forall k u, x !! k = Some (EvEnqueue u) ->
     (u ∉ visits tr) /\ (u ∉ visits (take k x))) ->
  forall i u, (tr ++ x) !! i = Some (EvEnqueue u) -> u ∉ visits (take i (tr ++ x)).
Proof.
  intros Htr Hx i u Hi. apply lookup_app_Some in Hi as [Hi|[Hle Hi]].
  - rewrite take_app_le by (apply lookup_lt_Some in Hi; lia). by apply Htr.
  - rewrite take_app, take_ge, visits_app by done.
    destruct (Hx _ u Hi) as [H1 H2]. rewrite elem_of_app. tauto.
Qed.

Lemma budget_app cfg tr x :
  (forall i u, tr !! i = Some (EvRequest u) ->
     max_pages_reached cfg (length (visits (take i tr))) = false) ->
  (forall k u, x !! k = Some (EvRequest u) ->
     max_pages_reached cfg (length (visits tr ++ visits (take k x))) = false) ->
  forall i u, (tr ++ x) !! i = Some (EvRequest u) ->
    max_pages_reached cfg (length (visits (take i (tr ++ x)))) = false.
Proof.
  intros Htr Hx i u Hi. apply lookup_app_Some in Hi as [Hi|[Hle Hi]].
  - rewrite take_app_le by (apply lookup_lt_Some in Hi; lia). by eapply Htr.
  - rewrite take_app, take_ge, visits_app by done. by eapply Hx.
Qed.

(** The page bound, once reached, stays reached. *)
Lemma max_pages_reached_mono cfg (n m : nat) :
  (n <= m)%nat -> max_pages_reached cfg m = false -> max_pages_reached cfg n = false.
Proof.
  unfold max_pages_reached. destruct (cfg_max_pages cfg) as [N|]; [| done].
  rewrite !Z.leb_gt. lia.
Qed.

End TraceFacts.

(** ** The crawl *)

Section CrawlFacts.

Variable env : Env.
Variable cfg : Config.

Local Abbreviation Inv := (Inv env cfg).
Local Abbreviation Inv_of := (Inv_of env cfg).
Local Abbreviation seed_or_valid := (seed_or_valid env cfg).

Lemma Inv_init : Inv_of (init cfg).
Proof.
  split; cbn; try done.
  - constructor.
  - intros N _. lia.
  - intros r Hr. by apply elem_of_nil in Hr.
  - intros u ->%list_elem_of_singleton. by left.
  - intros u Hu. by apply elem_of_nil in Hu.
Qed.

Lemma Inv_size v q d tr : Inv v q d tr -> size v = length (visits tr).
Proof.
  intros H. rewrite (inv_visited _ _ _ _ _ _ H).
  apply size_list_to_set, (inv_nodup _ _ _ _ _ _ H).
Qed.

(** Only the queue component speaks of the queue. *)
Lemma Inv_queue v q q' d tr :
  Inv v q d tr -> (forall u, u ∈ q' -> seed_or_valid u) -> Inv v q' d tr.
Proof. intros [] Hq. by split. Qed.

(** A chunk of events [x] that marks [u] visited and, at most, requests it
    right after. *)
Lemma Inv_chunk v q d tr u x extra :
  Inv v q d tr ->
  u ∉ v ->
  seed_or_valid u ->
  visits x = [u] ->
  enqueues x = [] ->
  (requests x = [] \/
   (requests x = [u] /\ max_pages_reached cfg (S (length (visits tr))) = false)) ->
  (forall k u', x !! k = Some (EvRequest u') ->
     u' = u /\ k = 1%nat /\ x !! 0%nat = Some (EvVisit u)) ->
  (length extra <= length (requests x))%nat ->
  (forall r, r ∈ extra -> pd_url r ∈ requests x) ->
  Inv ({[u]} ∪ v) q (d ++ extra) (tr ++ x).
Proof.
  intros H Hu Hok Hvis Henq Hreq Hpos Hlen Hextra.
  pose proof (Inv_size _ _ _ _ H) as Hsize. destruct H.
  assert (u ∉ visits tr) as Hu'.
  { intros Hin. apply Hu. subst v. by apply elem_of_list_to_set. }
  split.
  - rewrite visits_app, Hvis, list_to_set_app_L, <- inv_visited0. cbn.
    rewrite (right_id_L ∅ (∪)). apply (comm_L (∪)).
  - rewrite visits_app, Hvis. apply NoDup_app.
    split; [done |]. split; [| apply NoDup_singleton].
    intros y Hy ->%list_elem_of_singleton. done.
  - rewrite visits_app, requests_app, Hvis.
    destruct Hreq as [->|[-> _]].
    + rewrite app_nil_r. by apply sublist_inserts_r.
    + by apply sublist_app.
  - apply pred_app; [done |]. intros k u' Hk.
    destruct (Hpos k u' Hk) as (-> & -> & H0). by exists 0%nat.
  - apply enq_app; [done |]. intros k u' Hk.
    assert (u' ∈ enqueues x) as Hin.
    { apply list_elem_of_omap. exists (EvEnqueue u').
      split; [by eapply list_elem_of_lookup_2 | done]. }
    rewrite Henq in Hin. by apply elem_of_nil in Hin.
  - apply budget_app; [done |]. intros k u' Hk.
    destruct (Hpos k u' Hk) as (-> & -> & H0).
    destruct Hreq as [Hr|[_ Hb]].
    + assert (u ∈ requests x) as Hin.
      { apply list_elem_of_omap. exists (EvRequest u).
        split; [by eapply list_elem_of_lookup_2 | done]. }
      rewrite Hr in Hin. by apply elem_of_nil in Hin.
    + destruct x as [|e x]; [done |]. cbn in H0. injection H0 as ->.
      cbn. rewrite length_app. cbn. by rewrite Nat.add_1_r.
  - intros N HN. rewrite requests_app, length_app.
    destruct Hreq as [->|[-> Hb]].
    + cbn. rewrite Nat.add_0_r. by apply inv_count0.
    + cbn. unfold max_pages_reached in Hb. rewrite HN in Hb.
      apply Z.leb_gt in Hb. apply sublist_length in inv_sub0. lia.
  - rewrite requests_app, !length_app. lia.
  - intros r Hr. rewrite requests_app. apply elem_of_app.
    apply elem_of_app in Hr as [Hr|Hr]; [left; by apply inv_data_url0 |].
    right. by apply Hextra.
  - done.
  - intros y Hy. rewrite visits_app, Hvis in Hy.
    apply elem_of_app in Hy as [Hy|Hy]; [by apply inv_visits_ok0 |].
    by apply list_elem_of_singleton in Hy as ->.
Qed.

(** The URL is marked visited and the batch is left. *)
Lemma Inv_visit v q d tr u :
  Inv v q d tr -> u ∉ v -> seed_or_valid u ->
  Inv ({[u]} ∪ v) q d (tr ++ [EvVisit u]).
Proof.
  intros H Hu Hok. rewrite <- (app_nil_r d).
  apply Inv_chunk; try done.
  - by left.
  - intros [|[|k]] u' Hk; discriminate Hk.
  - intros r Hr. by apply elem_of_nil in Hr.
Qed.

(** The URL is marked visited and fetched, and at most one record, for
    this URL, is added. *)
Lemma Inv_fetch v q d tr u ds extra :
  Inv v q d tr -> u ∉ v -> seed_or_valid u ->
  max_pages_reached cfg (size ({[u]} ∪ v)) = false ->
  (length extra <= 1)%nat ->
  (forall r, r ∈ extra -> pd_url r = u) ->
  Inv ({[u]} ∪ v) q (d ++ extra) (tr ++ EvVisit u :: EvRequest u :: map EvSleep ds).
Proof.
  intros H Hu Hok Hb Hlen Hextra.
  apply Inv_chunk; try done.
  - cbn. by rewrite visits_sleeps.
  - cbn. by rewrite enqueues_sleeps.
  - right. cbn. rewrite requests_sleeps. split; [done |].
    rewrite <- (Inv_size _ _ _ _ H).
    rewrite size_union, size_singleton in Hb by set_solver. done.
  - intros [|[|k]] u' Hk; cbn in Hk.
    + discriminate Hk.
    + by injection Hk as ->.
    + apply lookup_sleeps in Hk as [d' Hd]. discriminate Hd.
  - cbn. by rewrite requests_sleeps.
  - intros r Hr. cbn. rewrite requests_sleeps.
    apply list_elem_of_singleton. by apply Hextra.
Qed.

(** New links join the queue. *)
Lemma Inv_enqueue v q d tr links :
  Inv v q d tr ->
  (forall u, u ∈ links -> is_valid_url env cfg u = true /\ u ∉ v) ->
  Inv v (q ++ links) d (tr ++ map EvEnqueue links).
Proof.
  intros H Hlinks. destruct H. split.
  - by rewrite visits_app, visits_enqueues, app_nil_r.
  - by rewrite visits_app, visits_enqueues, app_nil_r.
  - by rewrite visits_app, requests_app, visits_enqueues, requests_enqueues, !app_nil_r.
  - apply pred_app; [done |]. intros k u Hk.
    apply lookup_enqueues in Hk as (u' & Hu' & _). discriminate Hu'.
  - apply enq_app; [done |]. intros k u Hk.
    apply lookup_enqueues in Hk as (u' & [= <-] & Hin).
    rewrite visits_take_enqueues. split; [| apply not_elem_of_nil].
    destruct (Hlinks _ Hin) as [_ Hnv]. intros Hv. apply Hnv.
    subst v. by apply elem_of_list_to_set.
  - apply budget_app; [done |]. intros k u Hk.
    apply lookup_enqueues in Hk as (u' & Hu' & _). discriminate Hu'.
  - intros N HN. rewrite requests_app, requests_enqueues, app_nil_r. by apply inv_count0.
  - by rewrite requests_app, requests_enqueues, app_nil_r.
  - intros r Hr. rewrite requests_app, requests_enqueues, app_nil_r. by apply inv_data_url0.
  - intros u [Hu|Hu]%elem_of_app; [by apply inv_queue_ok0 |].
    right. by apply Hlinks.
  - intros u Hu. rewrite visits_app, visits_enqueues, app_nil_r in Hu.
    by apply inv_visits_ok0.
Qed.

Lemma Inv_of_eq st v q d tr :
  Inv v q d tr ->
  visited_urls st = v -> urls_to_visit st = q -> data st = d -> trace st = tr ->
  Inv_of st.
Proof. intros H <- <- <- <-. exact H. Qed.

(** *** Content extraction leaves the crawl state alone *)

Lemma foldl_stages_url (fs : list (PageData * Soup -> PageData * Soup)) p s :
  Forall (λ f, forall p s, pd_url (f (p, s)).1 = pd_url p) fs ->
  pd_url (foldl (λ acc f, f acc) (p, s) fs).1 = pd_url p.
Proof.
  revert p s. induction fs as [|f fs IH]; intros p s Hfs; [done |].
  apply Forall_cons in Hfs as [Hf Hfs]. cbn [foldl].
  destruct (f (p, s)) as [p' s'] eqn:Hfp. rewrite (IH _ _ Hfs).
  specialize (Hf p s). by rewrite Hfp in Hf.
Qed.

Lemma extraction_stages_url :
  Forall (λ f, forall p s, pd_url (f (p, s)).1 = pd_url p) (extraction_stages cfg).
Proof.
  unfold extraction_stages. repeat constructor; intros p s; cbn; try done.
  - by destruct (soup_title s).
  - by destruct (soup_meta_description s).
  - by destruct (select_main s (content_selectors cfg)), (soup_body s).
Qed.

Lemma extract_text_elements_url soup url st :
  pd_url (extract_text_elements env cfg soup url st).1.1 = url.
Proof.
  unfold extract_text_elements.
  set (page_data := mkPageData url "" "" _ _ _ "" _ "").
  assert (forall fs, Forall (λ f, forall p s, pd_url (f (p, s)).1 = pd_url p) fs ->
            pd_url (foldl (λ acc f, f acc) (page_data, soup) fs).1 = url) as Hrun.
  { intros fs Hfs. by rewrite foldl_stages_url. }
  pose proof (Hrun _ extraction_stages_url) as Hall.
  destruct (soup_raises soup) as [[k e]|]; [| exact Hall].
  destruct (k <? length (extraction_stages cfg))%nat; [| exact Hall].
  specialize (Hrun (take k (extraction_stages cfg))
                   (Forall_take _ _ _ extraction_stages_url)).
  by destruct (foldl _ _ (take k _)).
Qed.

Lemma extract_text_elements_frame soup url st :
  let st' := (extract_text_elements env cfg soup url st).2 in
  visited_urls st' = visited_urls st /\ urls_to_visit st' = urls_to_visit st /\
  current_depth st' = current_depth st /\ data st' = data st /\
  trace st' = trace st /\ files st' = files st.
Proof.
  unfold extract_text_elements.
  destruct (soup_raises soup) as [[k e]|]; [| done].
  destruct (k <? length (extraction_stages cfg))%nat; [| done].
  by destruct (foldl _ _ _).
Qed.

(** *** The batch loop keeps the invariant *)

Lemma crawl_batch_Inv urls st :
  Inv_of st ->
  (forall u, u ∈ urls -> seed_or_valid u) ->
  Inv_of (crawl_batch env cfg urls st).
Proof.
  revert st. induction urls as [|url rest IH]; intros st HI Hurls; [done |].
  assert (forall u, u ∈ rest -> seed_or_valid u) as Hrest.
  { intros u Hu. apply Hurls. by right. }
  assert (seed_or_valid url) as Hurl by (apply Hurls; by left).
  cbn [crawl_batch]. case_bool_decide as Hv; [by apply IH |].
  set (st1 := emit (EvVisit url) (set_visited_urls ({[url]} ∪ visited_urls st) st)).
  destruct (max_pages_reached cfg (size (visited_urls st1))) eqn:Hb.
  { eapply Inv_of_eq; [by apply (Inv_visit _ _ _ _ url HI) | done..]. }
  pose proof (get_page_content_frame env cfg url st1) as (Hv2 & Hq2 & Hd2 & Hdata2 & _).
  pose proof (get_page_content_trace env cfg url st1) as [ds Htr].
  destruct (get_page_content env cfg url st1) as [html st2].
  cbn [fst snd] in Hv2, Hq2, Hd2, Hdata2, Htr.
  assert (Inv_of st2) as HI2.
  { eapply Inv_of_eq;
      [apply (Inv_fetch _ _ _ _ url ds [] HI);
         [done | done | exact Hb | cbn; lia |
          intros r Hr; by apply elem_of_nil in Hr] | done | done | | ].
    - by rewrite app_nil_r.
    - rewrite Htr. cbn. by rewrite <- app_assoc. }
  destruct html as [[|c html]|]; [by apply IH | | by apply IH].
  pose proof (extract_text_elements_url (BeautifulSoup env (String c html)) url st2) as Hu.
  pose proof (extract_text_elements_frame (BeautifulSoup env (String c html)) url st2)
    as (Hv3 & Hq3 & Hd3 & Hdata3 & Htr3 & _).
  destruct (extract_text_elements env cfg _ url st2) as [[page_data soup] st3].
  cbn [fst snd] in Hu, Hv3, Hq3, Hd3, Hdata3, Htr3.
  set (st4 := set_data (data st3 ++ [page_data]) st3).
  assert (Inv_of st4) as HI4.
  { eapply Inv_of_eq;
      [apply (Inv_fetch _ _ _ _ url ds [page_data] HI);
         [done | done | exact Hb | cbn; lia |
          intros r Hr; by apply list_elem_of_singleton in Hr as ->] | | | | ].
    - cbn. by rewrite Hv3.
    - cbn. by rewrite Hq3, Hq2.
    - cbn. by rewrite Hdata3, Hdata2.
    - cbn. rewrite Htr3, Htr. cbn. by rewrite <- app_assoc. }
  apply IH; [| done].
  destruct (current_depth st4 <? max_depth cfg); [| done].
  eapply Inv_of_eq;
    [apply (Inv_enqueue _ _ _ _ (extract_links env cfg st4 soup url) HI4) | done..].
  intros u Hu'. apply extract_links_accepted in Hu' as (? & ? & ?). done.
Qed.

(** A relation between states that holds across each elementary action of
    the batch loop holds across the loop. *)
Lemma crawl_batch_rel (R : Crawler -> Crawler -> Prop) :
  (forall st, R st st) ->
  (forall a b c, R a b -> R b c -> R a c) ->
  (forall st url,
     R st (emit (EvVisit url) (set_visited_urls ({[url]} ∪ visited_urls st) st))) ->
  (forall st url, R st (get_page_content env cfg url st).2) ->
  (forall st soup url, R st (extract_text_elements env cfg soup url st).2) ->
  (forall st d, R st (set_data d st)) ->
  (forall st links, R st (extend_urls_to_visit links st)) ->
  forall urls st, R st (crawl_batch env cfg urls st).
Proof.
  intros Hrefl Htrans Hvisit Hfetch Hextract Hdata Hextend.
  induction urls as [|url rest IH]; intros st; [apply Hrefl |].
  cbn [crawl_batch]. case_bool_decide; [apply IH |].
  set (st1 := emit (EvVisit url) _).
  assert (R st st1) as H1 by apply Hvisit.
  destruct (max_pages_reached cfg (size (visited_urls st1))); [exact H1 |].
  pose proof (Hfetch st1 url) as H2.
  destruct (get_page_content env cfg url st1) as [html st2]. cbn [snd] in H2.
  assert (R st st2) as H12 by (by eapply Htrans).
  destruct html as [[|c html]|];
    [eapply Htrans; [exact H12 | apply IH] | | eapply Htrans; [exact H12 | apply IH]].
  pose proof (Hextract st2 (BeautifulSoup env (String c html)) url) as H3.
  destruct (extract_text_elements env cfg _ url st2) as [[page_data soup] st3].
  cbn [snd] in H3.
  eapply Htrans; [| apply IH].
  eapply Htrans; [exact H12 |]. eapply Htrans; [exact H3 |].
  eapply Htrans; [apply (Hdata st3 (data st3 ++ [page_data])) |].
  destruct (current_depth _ <? max_depth cfg); [apply Hextend | apply Hrefl].
Qed.

Lemma crawl_batch_depth urls st :
  current_depth (crawl_batch env cfg urls st) = current_depth st.
Proof.
  symmetry. revert urls st.
  apply (crawl_batch_rel (λ a b, current_depth a = current_depth b)); try done.
  - intros a b c. congruence.
  - intros st url. symmetry. apply get_page_content_frame.
  - intros st soup url. symmetry. apply extract_text_elements_frame.
Qed.

(** The visited set only grows along a batch. *)
Lemma crawl_batch_visited_mono urls st :
  visited_urls st ⊆ visited_urls (crawl_batch env cfg urls st).
Proof.
  revert urls st.
  apply (crawl_batch_rel (λ a b, visited_urls a ⊆ visited_urls b)); try done.
  - intros a b c Hab Hbc. by etrans.
  - intros st url. cbn. apply union_subseteq_r.
  - intros st url.
    by destruct (get_page_content_frame env cfg url st) as (-> & _).
  - intros st soup url.
    by destruct (extract_text_elements_frame soup url st) as (-> & _).
Qed.

(** *** Shuffling and capping keep the queue within its members *)

Lemma swap_subseteq (x : list string) i j : swap x i j ⊆ x.
Proof.
  unfold swap. destruct (x !! i) as [a|] eqn:Hi; [| done].
  destruct (x !! j) as [b|] eqn:Hj; [| done].
  intros u Hu. apply list_elem_of_lookup in Hu as [k Hk].
  apply list_lookup_insert_Some in Hk as [(_ & -> & _)|[_ Hk]].
  { by eapply list_elem_of_lookup_2. }
  apply list_lookup_insert_Some in Hk as [(_ & -> & _)|[_ Hk]];
    by eapply list_elem_of_lookup_2.
Qed.

Lemma shuffle_from_subseteq rand i (x : list string) : shuffle_from rand i x ⊆ x.
Proof.
  revert x. induction i as [|i IH]; intros x; [done |].
  cbn [shuffle_from]. etrans; [apply IH | apply swap_subseteq].
Qed.

Lemma shuffle_subseteq t (x : list string) : shuffle env t x ⊆ x.
Proof. apply shuffle_from_subseteq. Qed.

Lemma slice_to_subseteq n (x : list string) : slice_to n x ⊆ x.
Proof. unfold slice_to. destruct (0 <=? n); apply subseteq_take. Qed.

(** *** The depth loop *)

Lemma crawl_depth_depth st :
  current_depth (crawl_depth env cfg st) = current_depth st + 1.
Proof.
  unfold crawl_depth.
  destruct (negb (breadth_first cfg)); cbn;
    match goal with |- context [if ?b then _ else _] => destruct b end; cbn;
    by rewrite crawl_batch_depth.
Qed.

Lemma crawl_depth_visited_mono st :
  visited_urls st ⊆ visited_urls (crawl_depth env cfg st).
Proof.
  unfold crawl_depth.
  destruct (negb (breadth_first cfg)); cbn;
    match goal with |- context [if ?b then _ else _] => destruct b end; cbn;
    apply (crawl_batch_visited_mono _ (set_urls_to_visit [] st)).
Qed.

Lemma crawl_depth_Inv st : Inv_of st -> Inv_of (crawl_depth env cfg st).
Proof.
  intros HI. unfold crawl_depth.
  assert (Inv_of (crawl_batch env cfg (urls_to_visit st) (set_urls_to_visit [] st)))
    as HB.
  { apply crawl_batch_Inv; [| apply (inv_queue_ok _ _ _ _ _ _ HI)].
    eapply Inv_of_eq; [eapply (Inv_queue _ _ [] _ _ HI) | done..].
    intros u Hu. by apply elem_of_nil in Hu. }
  set (sb := crawl_batch env cfg _ _) in *.
  pose proof (inv_queue_ok _ _ _ _ _ _ HB) as Hq.
  destruct (negb (breadth_first cfg)); cbn;
    match goal with |- context [if ?b then _ else _] => destruct b end;
    (eapply Inv_of_eq; [eapply (Inv_queue _ _ _ _ _ HB) | done..]); cbn;
    intros u Hu; apply Hq.
  - apply slice_to_subseteq in Hu. by apply (shuffle_subseteq (tick sb)) in Hu.
  - by apply (shuffle_subseteq (tick sb)) in Hu.
  - by apply slice_to_subseteq in Hu.
  - done.
Qed.

Lemma crawl_loop_Inv fuel st : Inv_of st -> Inv_of (crawl_loop env cfg fuel st).
Proof.
  revert st. induction fuel as [|fuel IH]; intros st HI; [done |].
  cbn [crawl_loop]. destruct (loop_condition cfg st); [| done].
  by apply IH, crawl_depth_Inv.
Qed.

Lemma crawl_loop_visited_mono fuel st :
  visited_urls st ⊆ visited_urls (crawl_loop env cfg fuel st).
Proof.
  revert st. induction fuel as [|fuel IH]; intros st; [done |].
  cbn [crawl_loop]. destruct (loop_condition cfg st); [| done].
  etrans; [apply crawl_depth_visited_mono | apply IH].
Qed.

(** The fuel given by [crawl] is never what stops the loop: when it is used
    up the condition of the [while] is false. *)
Lemma crawl_loop_ends fuel st :
  (Z.to_nat (max_depth cfg + 1 - current_depth st) <= fuel)%nat ->
  loop_condition cfg (crawl_loop env cfg fuel st) = false.
Proof.
  revert st. induction fuel as [|fuel IH]; intros st Hfuel.
  - cbn. unfold loop_condition. destruct (urls_to_visit st); [done |].
    apply Z.leb_gt. lia.
  - cbn [crawl_loop]. destruct (loop_condition cfg st) eqn:Hc; [| done].
    apply IH. rewrite crawl_depth_depth. lia.
Qed.

Lemma crawl_ends st : loop_condition cfg (crawl env cfg st) = false.
Proof. by apply crawl_loop_ends. Qed.

Lemma crawl_Inv : Inv_of (crawl env cfg (init cfg)).
Proof. apply crawl_loop_Inv, Inv_init. Qed.

End CrawlFacts.

(** ** The claims about the crawl *)

(** C1, on the code. With a bound of three pages on the site, [A] is
    fetched, then [B]; marking [C] reaches the bound and leaves the batch,
    but the links of [B] are already queued and the loop goes on to the next
    depth, where [D] is marked before the bound is tested again: four URLs
    are in the visited set, one more than the bound. *)
Theorem crawl_visited_exceeds_max_pages :
  let cfg := Site.config Site.A 3 (Some 3) in
  visits (trace (crawl Site.env cfg (init cfg))) = [Site.A; Site.B; Site.C; Site.D] /\
  size (visited_urls (crawl Site.env cfg (init cfg))) = 4%nat /\
  ~ visited_within_max_pages Site.env cfg.
Proof.
  split; [vm_compute; reflexivity |]. split; [vm_compute; reflexivity |].
  intros H. specialize (H 3 eq_refl). vm_compute in H. by apply H.
Qed.

(** C2. In every crawl no URL is requested twice. Each request comes
    right after the addition of its URL to the visited set; a URL is added
    only when it is not yet a member, so the additions are distinct and the
    set, which is the set of all additions so far, only grows; a link is
    returned by [extract_links], and queued, only for a URL that is not in
    the visited set at that time. *)
Theorem crawl_fetches_each_url_once (env : Env) (cfg : Config) :
  NoDup (requests (trace (crawl env cfg (init cfg)))) /\
  (forall i u, trace (crawl env cfg (init cfg)) !! i = Some (EvRequest u) ->
     exists j, i = S j /\ trace (crawl env cfg (init cfg)) !! j = Some (EvVisit u)) /\
  NoDup (visits (trace (crawl env cfg (init cfg)))) /\
  visited_urls (crawl env cfg (init cfg))
  = list_to_set (visits (trace (crawl env cfg (init cfg)))) /\
  (forall i u, trace (crawl env cfg (init cfg)) !! i = Some (EvEnqueue u) ->
     u ∉ visits (take i (trace (crawl env cfg (init cfg))))) /\
  (forall st, visited_urls st ⊆ visited_urls (crawl env cfg st)) /\
  (forall st urls, visited_urls st ⊆ visited_urls (crawl_batch env cfg urls st)) /\
  (forall st soup base_url u,
     u ∈ extract_links env cfg st soup base_url -> u ∉ visited_urls st).
Proof.
  destruct (crawl_Inv env cfg).
  split; [by eapply sublist_NoDup |].
  repeat split; try done.
  - intros st. apply crawl_loop_visited_mono.
  - intros st urls. apply crawl_batch_visited_mono.
  - intros st soup base_url u Hu. by apply extract_links_accepted in Hu as (_ & ? & _).
Qed.

(** C4, as amended. With a page bound [N], at most [max (N - 1) 0] URLs
    are fetched and at most as many records made: fewer than [N] when [N] is
    at least 1, none when [N] is at most 1. A URL whose addition brings the
    visited set to [N] members or more is never fetched and has no record. *)
Theorem crawl_fetches_below_budget (env : Env) (cfg : Config) (N : Z) :
  cfg_max_pages cfg = Some N ->
  Z.of_nat (length (requests (trace (crawl env cfg (init cfg))))) <= Z.max 0 (N - 1) /\
  Z.of_nat (length (data (crawl env cfg (init cfg)))) <= Z.max 0 (N - 1) /\
  (forall i u,
     trace (crawl env cfg (init cfg)) !! i = Some (EvVisit u) ->
     N <= Z.of_nat (length (visits (take (S i) (trace (crawl env cfg (init cfg)))))) ->
     (u ∉ requests (trace (crawl env cfg (init cfg)))) /\
     (forall r, r ∈ data (crawl env cfg (init cfg)) -> pd_url r <> u)) /\
  (N <= 1 ->
   requests (trace (crawl env cfg (init cfg))) = [] /\
   data (crawl env cfg (init cfg)) = []).
Proof.
  intros HN. destruct (crawl_Inv env cfg).
  set (st := crawl env cfg (init cfg)) in *.
  pose proof (inv_count0 N HN) as Hcount.
  assert (forall i u, trace st !! i = Some (EvVisit u) ->
            N <= Z.of_nat (length (visits (take (S i) (trace st)))) ->
            u ∉ requests (trace st)) as Hnever.
  { intros i u Hi Hreach Hu.
    apply request_in_trace in Hu as [k Hk].
    destruct (inv_pred0 k u Hk) as (j & -> & Hj).
    assert (i = j) as -> by (by eapply visit_index_unique).
    pose proof (inv_budget0 _ _ Hk) as Hb.
    unfold max_pages_reached in Hb. rewrite HN in Hb. apply Z.leb_gt in Hb. lia. }
  split; [done |]. split; [lia |]. split.
  - intros i u Hi Hreach. split; [by eapply Hnever |].
    intros r Hr <-. eapply Hnever; [done | done |]. by apply inv_data_url0.
  - intros H1.
    assert (length (requests (trace st)) = 0%nat) as Hr by lia.
    assert (length (data st) = 0%nat) as Hd by lia.
    by apply nil_length_inv in Hr, Hd.
Qed.

Lemma crawl_fetches_below_budget_witness :
  let cfg := Site.config Site.A 3 (Some 3) in
  Z.of_nat (length (requests (trace (crawl Site.env cfg (init cfg))))) <= Z.max 0 (3 - 1).
Proof.
  exact (proj1 (crawl_fetches_below_budget Site.env (Site.config Site.A 3 (Some 3)) 3
                  eq_refl)).
Defined.

(** C4 as worded fails for a bound of zero: nothing is fetched, and zero
    is not less than zero. *)
Lemma fetched_below_max_pages_fails :
  ~ fetched_below_max_pages Site.env (Site.config Site.A 3 (Some 0)).
Proof.
  intros H. destruct (H 0 eq_refl) as [Hlt _]. vm_compute in Hlt. discriminate Hlt.
Qed.

(** A URL that passed [is_valid_url] does not end, once lower-cased, with
    any of the configured extensions. *)
Lemma is_valid_url_extension env cfg url :
  is_valid_url env cfg url = true ->
  existsb (λ ext, PyStr.endswith (PyStr.lower url) ext) (ignore_extensions cfg) = false.
Proof.
  unfold is_valid_url.
  destruct (negb (validators_url env url)); [done |].
  destruct (restrict_to_domain cfg && _); [done |].
  by destruct (existsb _ _).
Qed.

(** C6, as amended. When the configured extensions are written in lower
    case, as the default ones and those of [main] are, every record of a
    crawl either is that of the seed URL, which no filter is applied to, or
    has a URL that does not end, whatever the case of its letters, with a
    configured extension. *)
Theorem crawl_records_not_ignored (env : Env) (cfg : Config) :
  Forall (λ ext, PyStr.lower ext = ext) (ignore_extensions cfg) ->
  forall r, r ∈ data (crawl env cfg (init cfg)) ->
    pd_url r = start_url cfg \/ ends_with_ignored cfg (pd_url r) = false.
Proof.
  intros Hlower r Hr. destruct (crawl_Inv env cfg).
  apply inv_data_url0 in Hr.
  assert (pd_url r ∈ visits (trace (crawl env cfg (init cfg)))) as Hv.
  { eapply sublist_subseteq; [exact inv_sub0 | exact Hr]. }
  destruct (inv_visits_ok0 _ Hv) as [Hseed|Hvalid]; [by left | right].
  apply is_valid_url_extension in Hvalid.
  destruct (ends_with_ignored cfg (pd_url r)) eqn:He; [| done].
  apply existsb_exists in He as (ext & Hin & He).
  rewrite Forall_forall in Hlower.
  rewrite (Hlower ext) in He by (by apply list_elem_of_In).
  rewrite <- Hvalid. symmetry. apply existsb_exists. by exists ext.
Qed.

Lemma crawl_records_not_ignored_witness :
  let cfg := Site.config Site.A 3 None in
  pd_url Site.record_B = start_url cfg \/
  ends_with_ignored cfg (pd_url Site.record_B) = false.
Proof.
  refine (crawl_records_not_ignored Site.env (Site.config Site.A 3 None) _
            Site.record_B _).
  - repeat constructor.
  - vm_compute. right. left.
Defined.

(** C6 as worded fails for the seed: a seed URL ending in [.pdf] is fetched
    and recorded like any other. *)
Lemma no_ignored_record_fails :
  ~ no_ignored_record Site.env (Site.config "http://example.com/report.pdf" 3 None).
Proof.
  intros H. unfold no_ignored_record in H.
  destruct (data _) as [|r d] eqn:Hd; vm_compute in Hd; [discriminate Hd |].
  injection Hd as <- <-.
  specialize (H _ (list_elem_of_here _ _)). vm_compute in H. discriminate H.
Qed.


(** After the batch, a turn of the loop changes the depth and the queue
    only, and adds nothing to the queue. *)
Lemma crawl_depth_after_batch env cfg st :
  let sb := crawl_batch env cfg (urls_to_visit st) (set_urls_to_visit [] st) in
  data (crawl_depth env cfg st) = data sb /\
  trace (crawl_depth env cfg st) = trace sb /\
  visited_urls (crawl_depth env cfg st) = visited_urls sb /\
  urls_to_visit (crawl_depth env cfg st) ⊆ urls_to_visit sb.
Proof.
  intros sb. unfold crawl_depth. fold sb.
  destruct (negb (breadth_first cfg)); cbn;
    match goal with |- context [if ?b then _ else _] => destruct b end; cbn;
    repeat split; try done.
  - etrans; [apply slice_to_subseteq | apply (shuffle_subseteq env (tick sb))].
  - apply (shuffle_subseteq env (tick sb)).
  - apply slice_to_subseteq.
Qed.



(** *** The crawl and the exceptions it lets through *)

Section CrawlRuns.

Variable env : Env.
Variable cfg : Config.







End CrawlRuns.



(** A seed whose document the parser rejects: the fetch is made, the parser
    raises, and the crawl ends there without a record. *)
Example crawl_seed_rejected_by_parser :
  let env := mkEnv (validators_url Site.env) (urljoin Site.env) (netloc Site.env)
               (λ _ _, Returned (200, "<![foo bar]>")) (driver_get Site.env)
               (driver_page_source Site.env) (BeautifulSoup Site.env)
               (randbelow Site.env) (now Site.env) (io_open Site.env)
               (io_write Site.env) (io_torn Site.env) (urljoin_error Site.env)
               (urlparse_error Site.env) (parse_error Site.env)
               (http_error_text Site.env) None (driver_quit_error Site.env) in
  let cfg := Site.config Site.A 0 None in
  (crawl_run env cfg (init cfg)).2 = Raised "AssertionError" /\
  data (crawl_run env cfg (init cfg)).1 = [] /\
  requests (trace (crawl_run env cfg (init cfg)).1) = [Site.A].
Proof. repeat split; vm_compute; reflexivity. Qed.


(** * Further properties of the crawler *)

(** The cases of one turn of the batch loop on [url], with what the fetch
    and the extraction leave of the state. *)
Ltac batch_cases env cfg url st :=
  cbn [crawl_batch]; case_bool_decide as Hv;
  [ | set (st1 := emit (EvVisit url)
                    (set_visited_urls ({[url]} ∪ visited_urls st) st));
      destruct (max_pages_reached cfg (size (visited_urls st1))) eqn:Hb;
      [ | pose proof (get_page_content_frame env cfg url st1)
            as (Hv2 & Hq2 & Hd2 & Hdata2 & Hf2);
          pose proof (get_page_content_trace env cfg url st1) as [ds Htr];
          destruct (get_page_content env cfg url st1) as [html st2];
          cbn [fst snd] in Hv2, Hq2, Hd2, Hdata2, Hf2, Htr;
          destruct html as [[|c html]|];
          [ | pose proof (extract_text_elements_url env cfg
                            (BeautifulSoup env (String c html)) url st2) as Hu;
              pose proof (extract_text_elements_frame env cfg
                            (BeautifulSoup env (String c html)) url st2)
                as (Hv3 & Hq3 & Hd3 & Hdata3 & Htr3 & Hf3);
              destruct (extract_text_elements env cfg
                          (BeautifulSoup env (String c html)) url st2)
                as [[page_data soup] st3];
              cbn [fst snd] in Hu, Hv3, Hq3, Hd3, Hdata3, Htr3, Hf3
          | ] ] ].

Section CrawlMore.

Variable env : Env.
Variable cfg : Config.

(** *** Depth and termination *)

Lemma crawl_loop_depth_bound fuel st :
  current_depth st <= current_depth (crawl_loop env cfg fuel st) /\
  current_depth (crawl_loop env cfg fuel st)
  <= Z.max (current_depth st) (max_depth cfg + 1).
Proof.
  revert st. induction fuel as [|fuel IH]; intros st; [cbn; lia |].
  cbn [crawl_loop]. destruct (loop_condition cfg st) eqn:Hc; [| lia].
  specialize (IH (crawl_depth env cfg st)). rewrite crawl_depth_depth in IH.
  unfold loop_condition in Hc. destruct (urls_to_visit st); [done |].
  apply Z.leb_le in Hc. lia.
Qed.

(** *** A batch at the last depth queues nothing *)

Lemma crawl_batch_no_enqueue urls st :
  max_depth cfg <= current_depth st ->
  urls_to_visit (crawl_batch env cfg urls st) = urls_to_visit st /\
  enqueues (trace (crawl_batch env cfg urls st)) = enqueues (trace st).
Proof.
  revert st. induction urls as [|url rest IH]; intros st Hlast; [done |].
  batch_cases env cfg url st.
  - by apply IH.
  - cbn. by rewrite enqueues_app, app_nil_r.
  - destruct (IH st2) as [-> ->]; [by rewrite Hd2 |].
    rewrite Hq2, Htr. cbn.
    by rewrite !enqueues_app; cbn; rewrite enqueues_sleeps, !app_nil_r.
  - replace (current_depth (set_data (data st3 ++ [page_data]) st3) <? max_depth cfg)
      with false by (cbn; rewrite Hd3, Hd2; cbn; symmetry; apply Z.ltb_ge; lia).
    destruct (IH (set_data (data st3 ++ [page_data]) st3)) as [-> ->];
      [cbn; by rewrite Hd3, Hd2 |].
    cbn. rewrite Hq3, Hq2, Htr3, Htr. cbn.
    by rewrite !enqueues_app; cbn; rewrite enqueues_sleeps, !app_nil_r.
  - destruct (IH st2) as [-> ->]; [by rewrite Hd2 |].
    rewrite Hq2, Htr. cbn.
    by rewrite !enqueues_app; cbn; rewrite enqueues_sleeps, !app_nil_r.
Qed.

Lemma crawl_loop_queue_empty fuel st :
  (Z.to_nat (max_depth cfg + 1 - current_depth st) <= fuel)%nat ->
  current_depth st <= max_depth cfg + 1 ->
  (current_depth st = max_depth cfg + 1 -> urls_to_visit st = []) ->
  urls_to_visit (crawl_loop env cfg fuel st) = [].
Proof.
  revert st. induction fuel as [|fuel IH]; intros st Hfuel Hle Hlast.
  - cbn. apply Hlast. lia.
  - cbn [crawl_loop]. destruct (loop_condition cfg st) eqn:Hc.
    + unfold loop_condition in Hc. destruct (urls_to_visit st) eqn:Hq; [done |].
      apply Z.leb_le in Hc. rewrite <- Hq in *.
      apply IH; rewrite ?crawl_depth_depth; [lia | lia |].
      intros Hd. assert (max_depth cfg <= current_depth (set_urls_to_visit [] st))
        as Hmd by (cbn; lia).
      destruct (crawl_depth_after_batch env cfg st) as (_ & _ & _ & Hsub).
      cbn zeta in Hsub.
      rewrite (proj1 (crawl_batch_no_enqueue (urls_to_visit st) _ Hmd)) in Hsub.
      destruct (urls_to_visit (crawl_depth env cfg st)) as [|u q]; [done |].
      specialize (Hsub u (list_elem_of_here _ _)). by apply elem_of_nil in Hsub.
    + unfold loop_condition in Hc. destruct (urls_to_visit st); [done |].
      apply Z.leb_gt in Hc. apply Hlast. lia.
Qed.

(** X1. [crawl] stops: from any state, when it returns either the queue is
    empty or the depth counter is above the maximum depth; the counter never
    goes down and never passes [max_depth + 1] (unless it started above). *)
Theorem crawl_stops_within_depth (st : Crawler) :
  (urls_to_visit (crawl env cfg st) = [] \/
   max_depth cfg < current_depth (crawl env cfg st)) /\
  current_depth st <= current_depth (crawl env cfg st) /\
  current_depth (crawl env cfg st) <= Z.max (current_depth st) (max_depth cfg + 1).
Proof.
  split; [| apply crawl_loop_depth_bound].
  pose proof (crawl_ends env cfg st) as Hc. unfold loop_condition in Hc.
  destruct (urls_to_visit (crawl env cfg st)); [by left | right].
  by apply Z.leb_gt in Hc.
Qed.

(** X2. At the last depth no link is queued: a batch run when the depth
    counter has reached the maximum depth leaves the queue as it was and
    enqueues nothing, whatever the pages contain. *)
Theorem crawl_batch_last_depth_queues_nothing (urls : list string) (st : Crawler) :
  max_depth cfg <= current_depth st ->
  urls_to_visit (crawl_batch env cfg urls st) = urls_to_visit st /\
  enqueues (trace (crawl_batch env cfg urls st)) = enqueues (trace st).
Proof. apply crawl_batch_no_enqueue. Qed.

(** X3. With a maximum depth of at least zero, a crawl ends with an empty
    queue: no URL is left waiting. *)
Theorem crawl_ends_with_empty_queue :
  0 <= max_depth cfg -> urls_to_visit (crawl env cfg (init cfg)) = [].
Proof.
  intros Hmd. apply crawl_loop_queue_empty; cbn; [done | lia | lia].
Qed.

End CrawlMore.

Lemma crawl_batch_last_depth_queues_nothing_witness :
  let cfg := Site.config Site.A 0 None in
  urls_to_visit (crawl_batch Site.env cfg [Site.A] (init cfg)) = [Site.A].
Proof.
  refine (proj1 (crawl_batch_last_depth_queues_nothing Site.env
                   (Site.config Site.A 0 None) [Site.A] _ _)).
  vm_compute. discriminate.
Defined.

Lemma crawl_ends_with_empty_queue_witness :
  urls_to_visit (crawl Site.env (Site.config Site.A 3 None)
                       (init (Site.config Site.A 3 None))) = [].
Proof.
  refine (crawl_ends_with_empty_queue Site.env (Site.config Site.A 3 None) _).
  vm_compute. discriminate.
Defined.

Section CrawlRecords.

Variable env : Env.
Variable cfg : Config.

(** *** Records and requests *)

Lemma requests_visit_fetch tr url ds :
  requests ((tr ++ [EvVisit url]) ++ EvRequest url :: map EvSleep ds)
  = requests tr ++ [url].
Proof.
  rewrite !requests_app. cbn. by rewrite requests_sleeps, app_nil_r.
Qed.

Lemma crawl_batch_records urls st :
  sublist (map pd_url (data st)) (requests (trace st)) ->
  sublist (map pd_url (data (crawl_batch env cfg urls st)))
          (requests (trace (crawl_batch env cfg urls st))).
Proof.
  revert st. induction urls as [|url rest IH]; intros st HP; [done |].
  batch_cases env cfg url st.
  - by apply IH.
  - cbn. by rewrite requests_app, app_nil_r.
  - apply IH. rewrite Hdata2, Htr. cbn [st1 emit set_visited_urls data trace].
    rewrite requests_visit_fetch. by apply sublist_inserts_r.
  - apply IH.
    assert (sublist (map pd_url (data st3 ++ [page_data]))
                    (requests (trace st3))) as HP'.
    { rewrite Hdata3, Hdata2, Htr3, Htr. cbn [st1 emit set_visited_urls data trace].
      rewrite requests_visit_fetch, map_app. cbn. rewrite Hu.
      by apply sublist_app. }
    destruct (current_depth _ <? max_depth cfg); cbn; [| done].
    by rewrite requests_app, requests_enqueues, app_nil_r.
  - apply IH. rewrite Hdata2, Htr. cbn [st1 emit set_visited_urls data trace].
    rewrite requests_visit_fetch. by apply sublist_inserts_r.
Qed.

Lemma crawl_loop_records fuel st :
  sublist (map pd_url (data st)) (requests (trace st)) ->
  sublist (map pd_url (data (crawl_loop env cfg fuel st)))
          (requests (trace (crawl_loop env cfg fuel st))).
Proof.
  revert st. induction fuel as [|fuel IH]; intros st HP; [done |].
  cbn [crawl_loop]. destruct (loop_condition cfg st); [| done].
  apply IH. destruct (crawl_depth_after_batch env cfg st) as (-> & -> & _).
  by apply crawl_batch_records.
Qed.

(** X4. The records of a crawl are those of fetched URLs, in the order of
    the fetches: their URLs form a sub-sequence of the requests made, so no
    two records have the same URL. *)
Theorem crawl_records_follow_requests :
  sublist (map pd_url (data (crawl env cfg (init cfg))))
          (requests (trace (crawl env cfg (init cfg)))) /\
  NoDup (map pd_url (data (crawl env cfg (init cfg)))).
Proof.
  assert (sublist (map pd_url (data (crawl env cfg (init cfg))))
                  (requests (trace (crawl env cfg (init cfg))))) as Hsub.
  { apply crawl_loop_records. cbn. constructor. }
  split; [exact Hsub |].
  destruct (crawl_Inv env cfg).
  eapply sublist_NoDup; [| exact Hsub].
  eapply sublist_NoDup; [exact inv_nodup0 | exact inv_sub0].
Qed.

(** *** How far the visited set can pass the page bound *)

Lemma crawl_batch_size N urls st :
  cfg_max_pages cfg = Some N ->
  Z.of_nat (size (visited_urls (crawl_batch env cfg urls st)))
  <= Z.max N (Z.of_nat (size (visited_urls st)) + 1).
Proof.
  intros HN. revert st. induction urls as [|url rest IH]; intros st; [cbn; lia |].
  batch_cases env cfg url st; [apply IH | ..];
    assert (size (visited_urls st1) = S (size (visited_urls st))) as Hsz
      by (cbn; rewrite size_union, size_singleton
            by (by apply disjoint_singleton_l); done).
  - rewrite Hsz. lia.
  - unfold max_pages_reached in Hb. rewrite HN in Hb. apply Z.leb_gt in Hb.
    specialize (IH st2). rewrite Hv2 in IH. lia.
  - unfold max_pages_reached in Hb. rewrite HN in Hb. apply Z.leb_gt in Hb.
    match goal with |- context [crawl_batch env cfg rest ?s] =>
      specialize (IH s);
      replace (visited_urls s) with (visited_urls st1) in IH
        by (destruct (current_depth _ <? max_depth cfg); cbn; by rewrite Hv3, Hv2)
    end.
    lia.
  - unfold max_pages_reached in Hb. rewrite HN in Hb. apply Z.leb_gt in Hb.
    specialize (IH st2). rewrite Hv2 in IH. lia.
Qed.

Lemma crawl_loop_size N fuel st :
  cfg_max_pages cfg = Some N ->
  0 <= current_depth st ->
  Z.of_nat (size (visited_urls st)) <= Z.max N 1 + current_depth st - 1 ->
  Z.of_nat (size (visited_urls (crawl_loop env cfg fuel st)))
  <= Z.max N 1 + current_depth (crawl_loop env cfg fuel st) - 1.
Proof.
  intros HN. revert st. induction fuel as [|fuel IH]; intros st Hd Hst; [done |].
  cbn [crawl_loop]. destruct (loop_condition cfg st); [| done].
  apply IH; rewrite crawl_depth_depth; [lia |].
  destruct (crawl_depth_after_batch env cfg st) as (_ & _ & -> & _).
  pose proof (crawl_batch_size N (urls_to_visit st) (set_urls_to_visit [] st) HN) as Hb.
  cbn [set_urls_to_visit visited_urls] in Hb. lia.
Qed.

(** X5. With a page bound [N], the visited set of a crawl passes the bound
    by at most one URL for each depth after the first: it has at most
    [max N 1 + d - 1] members, [d] being the final depth counter, hence at
    most [max N 1 + max max_depth 0]. *)
Theorem crawl_visited_overshoot_bounded (N : Z) :
  cfg_max_pages cfg = Some N ->
  Z.of_nat (size (visited_urls (crawl env cfg (init cfg))))
  <= Z.max N 1 + current_depth (crawl env cfg (init cfg)) - 1 /\
  Z.of_nat (size (visited_urls (crawl env cfg (init cfg))))
  <= Z.max N 1 + Z.max (max_depth cfg) 0.
Proof.
  intros HN.
  assert (Z.of_nat (size (visited_urls (crawl env cfg (init cfg))))
          <= Z.max N 1 + current_depth (crawl env cfg (init cfg)) - 1) as H.
  { apply crawl_loop_size; [done | done |]. cbn. rewrite size_empty. lia. }
  split; [exact H |].
  pose proof (crawl_loop_depth_bound env cfg
                (Z.to_nat (max_depth cfg + 1 - current_depth (init cfg))) (init cfg))
    as [_ Hd].
  fold (crawl env cfg (init cfg)) in Hd. cbn [init current_depth] in Hd. lia.
Qed.

(** *** What a crawl leaves untouched *)




Lemma crawl_batch_run_appends urls st :
  data st `prefix_of` data (crawl_batch_run env cfg urls st).1 /\
  trace st `prefix_of` trace (crawl_batch_run env cfg urls st).1 /\
  files (crawl_batch_run env cfg urls st).1 = files st.
Proof.
  revert st. induction urls as [|url rest IH]; intros st; [done |].
  assert (trace st `prefix_of` trace st ++ [EvVisit url]) as Ht1
    by (by apply prefix_app_r).
  cbn [crawl_batch_run]. case_bool_decide as Hv; [apply IH |].
  set (st1 := emit (EvVisit url) (set_visited_urls ({[url]} ∪ visited_urls st) st)).
  destruct (max_pages_reached cfg (size (visited_urls st1))); [done |].
  pose proof (get_page_content_frame env cfg url st1) as (_ & _ & _ & Hdata2 & Hf2).
  pose proof (get_page_content_trace env cfg url st1) as [ds Htr].
  destruct (get_page_content env cfg url st1) as [html st2].
  cbn [fst snd] in Hdata2, Hf2, Htr.
  assert (data st `prefix_of` data st2 /\ trace st `prefix_of` trace st2 /\
          files st2 = files st) as (Hd2 & Ht2 & Hfs2).
  { rewrite Hdata2, Htr, Hf2. cbn. split; [done |]. split; [| done].
    apply prefix_app_r. exact Ht1. }
  assert (forall s, data st2 `prefix_of` data s -> trace st2 `prefix_of` trace s ->
                    files s = files st2 ->
                    data st `prefix_of` data s /\ trace st `prefix_of` trace s /\
                    files s = files st) as Hstep.
  { intros s Hd Ht Hf. split; [by etrans |]. split; [by etrans | by rewrite Hf]. }
  destruct html as [[|c html]|].
  - destruct (IH st2) as (Hd & Ht & Hf). by apply Hstep.
  - destruct (parse_error env (String c html)); [done |].
    pose proof (extract_text_elements_frame env cfg
                  (BeautifulSoup env (String c html)) url st2)
      as (_ & _ & _ & Hdata3 & Htr3 & Hf3).
    destruct (extract_text_elements env cfg (BeautifulSoup env (String c html)) url st2)
      as [[page_data soup] st3].
    cbn [fst snd] in Hdata3, Htr3, Hf3.
    set (s4 := set_data (data st3 ++ [page_data]) st3).
    assert (data st2 `prefix_of` data s4 /\ trace st2 `prefix_of` trace s4 /\
            files s4 = files st2) as (Hd4 & Ht4 & Hf4).
    { cbn. rewrite Hdata3, Htr3, Hf3. split; [by apply prefix_app_r | done]. }
    destruct (current_depth s4 <? max_depth cfg).
    + destruct (extract_links_run env cfg s4 soup url) as [e|links];
        [by apply Hstep |].
      destruct (IH (extend_urls_to_visit links s4)) as (Hd & Ht & Hf).
      cbn in Hd, Ht, Hf. apply Hstep.
      * by etrans.
      * etrans; [exact Ht4 |]. etrans; [| exact Ht]. by apply prefix_app_r.
      * by rewrite Hf.
    + destruct (IH s4) as (Hd & Ht & Hf).
      apply Hstep; [by etrans | by etrans | by rewrite Hf].
  - destruct (IH st2) as (Hd & Ht & Hf). by apply Hstep.
Qed.

Lemma next_depth_keeps st :
  data (next_depth env cfg st) = data st /\
  trace (next_depth env cfg st) = trace st /\
  files (next_depth env cfg st) = files st.
Proof.
  unfold next_depth.
  destruct (negb (breadth_first cfg)); cbn;
    match goal with |- context [if ?b then _ else _] => destruct b end; done.
Qed.

Lemma crawl_loop_run_appends fuel st :
  data st `prefix_of` data (crawl_loop_run env cfg fuel st).1 /\
  trace st `prefix_of` trace (crawl_loop_run env cfg fuel st).1 /\
  files (crawl_loop_run env cfg fuel st).1 = files st.
Proof.
  revert st. induction fuel as [|fuel IH]; intros st; [done |].
  cbn [crawl_loop_run]. destruct (loop_condition cfg st); [| done].
  unfold crawl_depth_run.
  pose proof (crawl_batch_run_appends (urls_to_visit st) (set_urls_to_visit [] st))
    as (Hd1 & Ht1 & Hf1).
  destruct (crawl_batch_run env cfg _ _) as [sb [e|[]]]; cbn [fst snd] in *;
    [done |].
  destruct (IH (next_depth env cfg sb)) as (Hd & Ht & ->).
  destruct (next_depth_keeps sb) as (Hd' & Ht' & ->).
  rewrite Hd' in Hd. rewrite Ht' in Ht.
  split; [by etrans |]. split; [by etrans | done].
Qed.

(** X6. A crawl only adds, whether it returns or raises: the records and
    the effects it starts with are kept, in order, at the head of those it
    ends with, and it writes no file other than its log. *)
Theorem crawl_only_appends (st : Crawler) :
  data st `prefix_of` data (crawl_run env cfg st).1 /\
  trace st `prefix_of` trace (crawl_run env cfg st).1 /\
  (forall f, f <> log_file ->
     files (crawl_run env cfg st).1 !! f = files st !! f).
Proof.
  unfold crawl_run.
  pose proof (crawl_loop_run_appends
                (Z.to_nat (max_depth cfg + 1 - current_depth st)) st)
    as (Hd & Ht & Hf).
  destruct (crawl_loop_run env cfg _ st) as [s' [e|[]]]; cbn [fst snd] in *;
    (split; [exact Hd |]; split; [exact Ht |]; intros f _; by rewrite Hf).
Qed.

(** *** The queue between two depths *)

Lemma swap_Permutation (x : list string) i j : swap x i j ≡ₚ x.
Proof.
  unfold swap. destruct (x !! i) as [a|] eqn:Hi; [| done].
  destruct (x !! j) as [b|] eqn:Hj; [| done].
  by apply Permutation_insert_swap.
Qed.

Lemma shuffle_from_Permutation rand i (x : list string) : shuffle_from rand i x ≡ₚ x.
Proof.
  revert x. induction i as [|i IH]; intros x; [done |].
  cbn [shuffle_from]. by rewrite IH, swap_Permutation.
Qed.

Lemma shuffle_Permutation_aux t (x : list string) : shuffle env t x ≡ₚ x.
Proof. apply shuffle_from_Permutation. Qed.

(** X7. The shuffle of a batch is a permutation of it: no URL is lost,
    none is added. *)
Theorem shuffle_Permutation (t : nat) (x : list string) : shuffle env t x ≡ₚ x.
Proof. apply shuffle_from_Permutation. Qed.

(** X8. After a turn of the loop the queue is the head of the batch's
    output (shuffled when batches are not kept in order), and with a queue
    bound that is not negative it holds at most that many URLs. *)
Theorem crawl_depth_queue_capped (st : Crawler) :
  0 <= max_queue_size cfg ->
  Z.of_nat (length (urls_to_visit (crawl_depth env cfg st))) <= max_queue_size cfg /\
  exists q,
    q ≡ₚ urls_to_visit (crawl_batch env cfg (urls_to_visit st)
                                     (set_urls_to_visit [] st)) /\
    urls_to_visit (crawl_depth env cfg st) `prefix_of` q /\
    (breadth_first cfg = true ->
     q = urls_to_visit (crawl_batch env cfg (urls_to_visit st)
                                    (set_urls_to_visit [] st))).
Proof.
  intros Hmq. unfold crawl_depth.
  set (sb := crawl_batch env cfg (urls_to_visit st) (set_urls_to_visit [] st)).
  destruct (breadth_first cfg); cbn [negb].
  - cbn. destruct (Z.of_nat (length (urls_to_visit sb)) >? max_queue_size cfg) eqn:Hgt.
    + cbn. unfold slice_to. rewrite (proj2 (Z.leb_le _ _) Hmq).
      split; [rewrite length_take; lia |].
      exists (urls_to_visit sb). split; [done |]. split; [apply prefix_take | done].
    + cbn. split; [lia |]. by exists (urls_to_visit sb).
  - cbn [urls_to_visit set_urls_to_visit next_tick set_current_depth tick].
    set (q := shuffle env (tick sb) (urls_to_visit sb)).
    destruct (Z.of_nat (length q) >? max_queue_size cfg) eqn:Hgt.
    + cbn. unfold slice_to. rewrite (proj2 (Z.leb_le _ _) Hmq).
      split; [rewrite length_take; lia |].
      exists q. split; [apply shuffle_Permutation_aux |].
      split; [apply prefix_take | done].
    + cbn. split; [lia |]. exists q.
      split; [apply shuffle_Permutation_aux | done].
Qed.

End CrawlRecords.

Lemma crawl_visited_overshoot_bounded_witness :
  let cfg := Site.config Site.A 3 (Some 3) in
  Z.of_nat (size (visited_urls (crawl Site.env cfg (init cfg))))
  <= Z.max 3 1 + Z.max (max_depth cfg) 0.
Proof.
  exact (proj2 (crawl_visited_overshoot_bounded Site.env
                  (Site.config Site.A 3 (Some 3)) 3 eq_refl)).
Defined.

Lemma crawl_depth_queue_capped_witness :
  let cfg := Site.config Site.A 3 None in
  Z.of_nat (length (urls_to_visit (crawl_depth Site.env cfg (init cfg))))
  <= max_queue_size cfg.
Proof.
  refine (proj1 (crawl_depth_queue_capped Site.env (Site.config Site.A 3 None)
                   (init (Site.config Site.A 3 None)) _)).
  vm_compute. discriminate.
Defined.

(** ** What passes [is_valid_url] *)

Lemma is_valid_url_domain env cfg url :
  is_valid_url env cfg url = true ->
  restrict_to_domain cfg = true ->
  netloc env url = netloc env (start_url cfg).
Proof.
  unfold is_valid_url, domain. intros Hv Hr. rewrite Hr in Hv.
  destruct (negb (validators_url env url)); [done |]. cbn [andb] in Hv.
  destruct (String.eqb (netloc env url) (netloc env (start_url cfg))) eqn:He;
    [by apply String.eqb_eq in He | done].
Qed.

Lemma is_valid_url_syntax env cfg url :
  is_valid_url env cfg url = true -> validators_url env url = true.
Proof.
  unfold is_valid_url. by destruct (validators_url env url).
Qed.

(** X9. Every URL a crawl fetches, and so the URL of every record, is the
    seed or a URL that the validator accepts; and under domain restriction
    its network location is exactly the seed's. *)
Theorem crawl_stays_in_domain (env : Env) (cfg : Config) :
  (forall u, u ∈ requests (trace (crawl env cfg (init cfg))) ->
     (u = start_url cfg \/ validators_url env u = true) /\
     (restrict_to_domain cfg = true -> netloc env u = netloc env (start_url cfg))) /\
  (forall r, r ∈ data (crawl env cfg (init cfg)) ->
     (pd_url r = start_url cfg \/ validators_url env (pd_url r) = true) /\
     (restrict_to_domain cfg = true ->
      netloc env (pd_url r) = netloc env (start_url cfg))).
Proof.
  destruct (crawl_Inv env cfg).
  assert (forall u, u ∈ requests (trace (crawl env cfg (init cfg))) ->
     (u = start_url cfg \/ validators_url env u = true) /\
     (restrict_to_domain cfg = true -> netloc env u = netloc env (start_url cfg)))
    as Hreq.
  { intros u Hu.
    assert (u ∈ visits (trace (crawl env cfg (init cfg)))) as Hv
      by (eapply sublist_subseteq; [exact inv_sub0 | exact Hu]).
    destruct (inv_visits_ok0 _ Hv) as [->|Hvalid]; [by split; [left |] |].
    split; [right; by eapply is_valid_url_syntax |].
    intros Hr. by apply is_valid_url_domain. }
  split; [exact Hreq |]. intros r Hr. by apply Hreq, inv_data_url0.
Qed.

(** The lower-cased form of a text holds no upper-case letter. *)
Lemma lower_ascii_not_upper c : is_upper (PyStr.lower_ascii c) = false.
Proof. destruct c as [[] [] [] [] [] [] [] []]; reflexivity. Qed.

Lemma has_upper_lower s : has_upper (PyStr.lower s) = false.
Proof.
  induction s as [|c s IH]; [done |].
  cbn [PyStr.lower has_upper]. by rewrite lower_ascii_not_upper, IH.
Qed.

Lemma endswith_has_upper s ext :
  PyStr.endswith s ext = true -> has_upper ext = true -> has_upper s = true.
Proof.
  induction s as [|c s IH]; cbn [PyStr.endswith]; intros He Hu.
  - rewrite orb_false_r in He. by apply String.eqb_eq in He as <-.
  - apply orb_true_iff in He as [He|He].
    + by apply String.eqb_eq in He as <-.
    + cbn [has_upper]. rewrite (IH He Hu). apply orb_true_r.
Qed.

Lemma endswith_lower_upper url ext :
  has_upper ext = true -> PyStr.endswith (PyStr.lower url) ext = false.
Proof.
  intros Hu. destruct (PyStr.endswith (PyStr.lower url) ext) eqn:He; [| done].
  pose proof (endswith_has_upper _ _ He Hu) as H.
  by rewrite has_upper_lower in H.
Qed.

(** X10. The extension filter compares the lower-cased URL with the
    extensions as configured: an extension written with an upper-case
    letter matches no URL, so when every configured extension has one, any
    URL that the validator accepts and that is in the seed's domain passes
    [is_valid_url], whatever its suffix. *)
Theorem upper_case_extensions_filter_nothing (env : Env) (cfg : Config)
    (url : string) :
  Forall (λ ext, has_upper ext = true) (ignore_extensions cfg) ->
  validators_url env url = true ->
  netloc env url = netloc env (start_url cfg) ->
  is_valid_url env cfg url = true.
Proof.
  intros Hexts Hv Hd. unfold is_valid_url, domain. rewrite Hv, Hd, String.eqb_refl.
  cbn [negb]. rewrite andb_false_r.
  replace (existsb _ _) with false; [done |]. symmetry.
  induction Hexts as [|ext exts Hext _ IH]; [done |].
  cbn [existsb]. by rewrite endswith_lower_upper, IH.
Qed.

Lemma upper_case_extensions_filter_nothing_witness :
  is_valid_url Site.env upper_case_config "http://example.com/report.PDF" = true.
Proof.
  refine (upper_case_extensions_filter_nothing Site.env upper_case_config
            "http://example.com/report.PDF" _ _ _).
  - repeat constructor.
  - reflexivity.
  - reflexivity.
Defined.

(** ** Link normalisation *)

Lemma contains_char_cons c d s :
  PyStr.contains (String c "") (String d s)
  = bool_decide (c = d) || PyStr.contains (String c "") s.
Proof.
  cbn [PyStr.contains]. by rewrite prefix_cons, prefix_nil, andb_true_r.
Qed.

Lemma contains_char_nil c : PyStr.contains (String c "") "" = false.
Proof. reflexivity. Qed.

Lemma before_first_lacks c s :
  PyStr.contains (String c "") (PyStr.before_first c s) = false.
Proof.
  induction s as [|d s IH]; [done |]. cbn [PyStr.before_first].
  destruct (Ascii.eqb c d) eqn:He; [done |].
  rewrite contains_char_cons, IH. apply Ascii.eqb_neq in He.
  by rewrite bool_decide_eq_false_2.
Qed.

Lemma before_first_keeps_lack c d s :
  PyStr.contains (String c "") s = false ->
  PyStr.contains (String c "") (PyStr.before_first d s) = false.
Proof.
  induction s as [|e s IH]; [done |]. rewrite contains_char_cons.
  intros [He Hs]%orb_false_iff. cbn [PyStr.before_first].
  destruct (Ascii.eqb d e); [done |]. by rewrite contains_char_cons, He, IH.
Qed.

Lemma before_first_id c s :
  PyStr.contains (String c "") s = false -> PyStr.before_first c s = s.
Proof.
  induction s as [|d s IH]; [done |]. rewrite contains_char_cons.
  intros [He Hs]%orb_false_iff. cbn [PyStr.before_first].
  apply bool_decide_eq_false in He. apply Ascii.eqb_neq in He. rewrite He.
  by rewrite IH.
Qed.

(** X11. With [ignore_url_params] (the default), no link returned by
    [extract_links] holds a [#] or a [?]: fragment and query are cut off.
    Cutting them off a URL that has none changes nothing, so the
    normalisation is idempotent. *)
Theorem extract_links_strips_fragment_and_query (env : Env) (cfg : Config)
    (st : Crawler) (soup : Soup) (base_url : string) :
  ignore_url_params cfg = true ->
  (forall u, u ∈ extract_links env cfg st soup base_url ->
     PyStr.contains "#" u = false /\ PyStr.contains "?" u = false) /\
  (forall u, u ∈ extract_links env cfg st soup base_url ->
     PyStr.before_first "?" (PyStr.before_first "#" u) = u).
Proof.
  intros Hp.
  assert (forall u, u ∈ extract_links env cfg st soup base_url ->
            PyStr.contains "#" u = false /\ PyStr.contains "?" u = false) as H.
  { intros u Hu. rewrite extract_links_filter in Hu.
    apply list_elem_of_In, filter_In in Hu as [Hu _].
    apply in_map_iff in Hu as (href & <- & _).
    unfold absolute_url_of. rewrite Hp.
    split; [apply before_first_keeps_lack, before_first_lacks
           | apply before_first_lacks]. }
  split; [exact H |]. intros u Hu. destruct (H u Hu) as [H1 H2].
  by rewrite (before_first_id "#" u H1), (before_first_id "?" u H2).
Qed.

Lemma extract_links_strips_fragment_and_query_witness :
  PyStr.contains "#" Site.D = false /\ PyStr.contains "?" Site.D = false.
Proof.
  exact (proj1 (extract_links_strips_fragment_and_query Site.env
                  (Site.config Site.A 3 None) (init (Site.config Site.A 3 None))
                  (Site.parse "page B") Site.B eq_refl)
               Site.D ltac:(vm_compute; left)).
Defined.

(** ** The fetch, when it succeeds *)

(** X12. A call of [get_page_content] that returns a document made one
    request, for the URL asked, and ended with the sleep of the configured
    delay; without the browser, the document is the body of a response whose
    status is neither 4xx nor 5xx. *)
Theorem get_page_content_success_is_delayed (env : Env) (cfg : Config)
    (url : string) (st : Crawler) (html : string) :
  (get_page_content env cfg url st).1 = Some html ->
  delay_before_return env cfg url st /\
  requests (trace (get_page_content env cfg url st).2)
  = requests (trace st) ++ [url] /\
  (use_selenium cfg = false ->
   exists status, session_get env (tick st) url = Returned (status, html) /\
                  raise_for_status status = false).
Proof.
  intros Hr. split; [by eapply get_page_content_success_delay |]. split.
  - destruct (get_page_content_trace env cfg url st) as [ds ->].
    rewrite requests_app. cbn. by rewrite requests_sleeps.
  - intros Hsel. revert Hr.
    unfold get_page_content, get_page_content_try, can_fetch, sleep. cbn [negb].
    rewrite Hsel. cbn [tick logger emit next_tick].
    destruct (session_get env (tick st) url) as [e|[status text]]; [done |].
    destruct (raise_for_status status) eqn:Hs; [done |].
    destruct (Qle_bool 0 (request_delay cfg)); [| done].
    intros [= ->]. by exists status.
Qed.

Lemma get_page_content_success_is_delayed_witness :
  let cfg := Site.config Site.A 3 None in
  delay_before_return Site.env cfg Site.A (init cfg).
Proof.
  refine (proj1 (get_page_content_success_is_delayed Site.env
                   (Site.config Site.A 3 None) Site.A
                   (init (Site.config Site.A 3 None)) "page A" _)).
  vm_compute. reflexivity.
Defined.

(** ** Content extraction *)

Lemma foldl_stages_keep {A} (proj : PageData -> A)
    (fs : list (PageData * Soup -> PageData * Soup)) p s :
  Forall (λ f, forall p s, proj (f (p, s)).1 = proj p) fs ->
  proj (foldl (λ acc f, f acc) (p, s) fs).1 = proj p.
Proof.
  revert p s. induction fs as [|f fs IH]; intros p s Hfs; [done |].
  apply Forall_cons in Hfs as [Hf Hfs]. cbn [foldl].
  destruct (f (p, s)) as [p' s'] eqn:Hfp. rewrite (IH _ _ Hfs).
  specialize (Hf p s). by rewrite Hfp in Hf.
Qed.

Lemma extraction_stages_keep_date cfg :
  Forall (λ f, forall p s, pd_date_crawled (f (p, s)).1 = pd_date_crawled p)
         (extraction_stages cfg).
Proof.
  unfold extraction_stages. repeat constructor; intros p s; cbn; try done.
  - by destruct (soup_title s).
  - by destruct (soup_meta_description s).
  - by destruct (select_main s (content_selectors cfg)), (soup_body s).
Qed.

Lemma extraction_stages_keep_errors cfg :
  Forall (λ f, forall p s, pd_errors (f (p, s)).1 = pd_errors p)
         (extraction_stages cfg).
Proof.
  unfold extraction_stages. repeat constructor; intros p s; cbn; try done.
  - by destruct (soup_title s).
  - by destruct (soup_meta_description s).
  - by destruct (select_main s (content_selectors cfg)), (soup_body s).
Qed.

(** X13. [extract_text_elements] always returns a record, stamped with the
    URL and the time of the call, and changes nothing of the crawl (visited
    set, queue, depth, records, effects, files other than the log, which
    takes a line when a step raises). The error entry of the
    record is empty when the extraction runs through, and is the message
    of the exception, after the prefix of the source, when a step raises. *)
Theorem extract_text_elements_always_records (env : Env) (cfg : Config)
    (soup : Soup) (url : string) (st : Crawler) :
  pd_url (extract_text_elements env cfg soup url st).1.1 = url /\
  pd_date_crawled (extract_text_elements env cfg soup url st).1.1 = now env (tick st) /\
  pd_errors (extract_text_elements env cfg soup url st).1.1
  = match soup_raises soup with
    | Some (k, e) =>
        if (k <? length (extraction_stages cfg))%nat
        then "Error extracting content: " +:+ e else ""
    | None => ""
    end /\
  visited_urls (extract_text_elements env cfg soup url st).2 = visited_urls st /\
  urls_to_visit (extract_text_elements env cfg soup url st).2 = urls_to_visit st /\
  current_depth (extract_text_elements env cfg soup url st).2 = current_depth st /\
  data (extract_text_elements env cfg soup url st).2 = data st /\
  trace (extract_text_elements env cfg soup url st).2 = trace st /\
  (forall f, f <> log_file ->
     files (extract_text_elements env cfg soup url st).2 !! f = files st !! f).
Proof.
  split; [apply extract_text_elements_url |].
  destruct (extract_text_elements_frame env cfg soup url st)
    as (Hv & Hq & Hd & Hdata & Htr & Hf).
  repeat split; try done; [| | intros f _; by rewrite Hf].
  - unfold extract_text_elements.
    set (page_data := mkPageData url "" "" _ _ _ "" _ "").
    pose proof (foldl_stages_keep pd_date_crawled (extraction_stages cfg)
                  page_data soup (extraction_stages_keep_date cfg)) as Hall.
    destruct (soup_raises soup) as [[k e]|]; [| exact Hall].
    destruct (k <? length (extraction_stages cfg))%nat; [| exact Hall].
    pose proof (foldl_stages_keep pd_date_crawled (take k (extraction_stages cfg))
                  page_data soup
                  (Forall_take _ _ _ (extraction_stages_keep_date cfg))) as Hk.
    by destruct (foldl _ _ (take k _)).
  - unfold extract_text_elements.
    set (page_data := mkPageData url "" "" _ _ _ "" _ "").
    pose proof (foldl_stages_keep pd_errors (extraction_stages cfg)
                  page_data soup (extraction_stages_keep_errors cfg)) as Hall.
    destruct (soup_raises soup) as [[k e]|]; [| exact Hall].
    destruct (k <? length (extraction_stages cfg))%nat; [| exact Hall].
    by destruct (foldl _ _ (take k _)).
Qed.

(** ** The export, row by row *)

Section ExportRows.

Variable env : Env.

Lemma writerows_others filename rows st f :
  f <> filename ->
  files (writerows env filename rows st).1 !! f = files st !! f.
Proof.
  intros Hne. revert st. induction rows as [|row rows IH]; intros st; [done |].
  cbn [writerows]. destruct (io_write env (tick st) filename) as [e|].
  - cbn. by rewrite lookup_insert_ne.
  - rewrite IH. cbn. by rewrite lookup_insert_ne.
Qed.

Lemma writerows_keeps_file filename rows st :
  is_Some (files st !! filename) ->
  is_Some (files (writerows env filename rows st).1 !! filename).
Proof.
  revert st. induction rows as [|row rows IH]; intros st Hf; [done |].
  cbn [writerows]. destruct (io_write env (tick st) filename) as [e|].
  - cbn. by rewrite lookup_insert_eq.
  - apply IH. cbn. by rewrite lookup_insert_eq.
Qed.

(** What the export leaves in the files: only [filename] can change, and
    only when there are records and it could be opened; it exists then. *)
Lemma export_to_csv_files filename st :
  (forall f, f <> filename ->
     files (export_to_csv env filename st).1 !! f = files st !! f) /\
  (data st <> [] -> io_open env (tick st) filename = None ->
   is_Some (files (export_to_csv env filename st).1 !! filename)) /\
  (data st = [] \/ io_open env (tick st) filename <> None ->
   files (export_to_csv env filename st).1 = files st).
Proof.
  unfold export_to_csv. destruct (data st) as [|item d] eqn:Hd.
  { split; [done |]. split; [done | done]. }
  rewrite <- Hd. unfold export_to_csv_try.
  destruct (io_open env (tick st) filename) as [e|] eqn:Hopen.
  { split; [done |]. split; [done | done]. }
  match goal with |- context [writerows env filename ?rows ?s] =>
    pose proof (λ f, writerows_others filename rows s f) as Hother;
    pose proof (writerows_keeps_file filename rows s) as Hfile;
    destruct (writerows env filename rows s) as [s' [e|[]]] end;
  cbn [fst snd files logger data set_data set_files next_tick app] in *.
  - split; [intros f Hne; rewrite (Hother f Hne); by rewrite lookup_insert_ne |].
    split; [intros _ _; apply Hfile; by rewrite lookup_insert_eq |].
    intros [H|H]; [by rewrite Hd in H | done].
  - split; [intros f Hne; rewrite (Hother f Hne); by rewrite lookup_insert_ne |].
    split; [intros _ _; apply Hfile; by rewrite lookup_insert_eq |].
    intros [H|H]; [by rewrite Hd in H | done].
Qed.

(** X14. An export changes no file but the one it is given and the log.
    When there are records and the file can be opened, the file exists
    afterwards; when there is no record or the file cannot be opened, no
    file but the log changes. *)
Theorem export_to_csv_touches_one_file (filename : string) (st : Crawler) :
  (forall f, f <> filename -> f <> log_file ->
     files (export_to_csv env filename st).1 !! f = files st !! f) /\
  (data st <> [] -> io_open env (tick st) filename = None ->
   filename <> log_file ->
   is_Some (files (export_to_csv env filename st).1 !! filename)) /\
  (data st = [] \/ io_open env (tick st) filename <> None ->
   forall f, f <> log_file ->
     files (export_to_csv env filename st).1 !! f = files st !! f).
Proof.
  destruct (export_to_csv_files filename st) as (Hother & Hfile & Hsame).
  split; [intros f Hne _; by apply Hother |].
  split; [intros Hd Hopen _; by apply Hfile |].
  intros H f _. by rewrite Hsame.
Qed.


End ExportRows.


(** ** The program as [main] runs it *)





(** ** [clean_filename] *)

Section CleanFilename.

Import CleanData.

Lemma replace_lacks a b s : a <> b -> lacks a (replace a b s).
Proof.
  intros Hab. induction s as [|d s IH]; [done |]. cbn [replace lacks].
  split; [| exact IH]. destruct (Ascii.eqb a d) eqn:He; [congruence |].
  apply Ascii.eqb_neq in He. congruence.
Qed.

Lemma sub_non_word_all w s :
  all_chars word_or_hyphen_if_ascii (sub_non_word w s).
Proof.
  induction s as [|d s IH]; [done |]. cbn [sub_non_word all_chars].
  split; [| exact IH]. unfold in_class, word_or_hyphen_if_ascii.
  destruct (is_ascii d) eqn:Ha.
  - destruct (is_word_or_hyphen d) eqn:Hd; [by rewrite Hd | done].
  - destruct (w d); [| done]. rewrite Ha. apply orb_true_r.
Qed.

Lemma str_take_all p n s : all_chars p s -> all_chars p (str_take n s).
Proof.
  revert s. induction n as [|n IH]; intros [|d s]; try done.
  intros [Hd Hs]. cbn [str_take all_chars]. split; [done | by apply IH].
Qed.

Lemma str_take_length n s : (String.length (str_take n s) <= n)%nat.
Proof.
  revert s. induction n as [|n IH]; intros [|d s]; cbn; try lia.
  specialize (IH s). lia.
Qed.

Lemma all_chars_lacks p c s : p c = false -> all_chars p s -> lacks c s.
Proof.
  intros Hc. induction s as [|d s IH]; [done |]. intros [Hd Hs].
  split; [congruence | by apply IH].
Qed.

(** The file name when the path is not empty: sanitised and cut. *)
Lemma clean_filename_path_case w urlparse url :
  strip "/" (urlparse url).2 <> "" ->
  (String.length (clean_filename w urlparse url) <= 100)%nat /\
  all_chars word_or_hyphen_if_ascii (clean_filename w urlparse url).
Proof.
  unfold clean_filename. destruct (urlparse url) as [hostname path0]. cbn [snd].
  intros Hne. destruct (String.eqb (strip "/" path0) "") eqn:He;
    [by apply String.eqb_eq in He |].
  destruct (100 <? String.length _)%nat eqn:Hlen.
  - split; [apply str_take_length | apply str_take_all, sub_non_word_all].
  - apply Nat.ltb_ge in Hlen. split; [exact Hlen | apply sub_non_word_all].
Qed.

(** X17. The file name [clean_filename] derives from a URL never holds a
    dot, so the [.csv] the caller appends is its only extension. *)
Theorem clean_filename_has_no_dot (unicode_word : ascii -> bool)
    (urlparse : string -> string * string) (url : string) :
  lacks "." (clean_filename unicode_word urlparse url).
Proof.
  destruct (String.eqb (strip "/" (urlparse url).2) "") eqn:He.
  - unfold clean_filename. destruct (urlparse url) as [hostname path0].
    cbn [snd] in He. rewrite He. by apply replace_lacks.
  - eapply all_chars_lacks; [| apply clean_filename_path_case].
    + reflexivity.
    + intros H. by rewrite H in He.
Qed.

(** X18. When the URL has a path other than slashes, the file name
    [clean_filename] returns is at most 100 characters long, and each of
    its ASCII characters is a letter, a digit, an underscore or a hyphen:
    of the characters of the host and the path, only word characters
    outside ASCII are kept besides these. *)
Theorem clean_filename_sanitised (unicode_word : ascii -> bool)
    (urlparse : string -> string * string) (url : string) :
  strip "/" (urlparse url).2 <> "" ->
  (String.length (clean_filename unicode_word urlparse url) <= 100)%nat /\
  all_chars word_or_hyphen_if_ascii (clean_filename unicode_word urlparse url).
Proof. apply clean_filename_path_case. Qed.

End CleanFilename.

Lemma clean_filename_sanitised_witness :
  (String.length
     (CleanData.clean_filename CleanData.latin1_letter
        (λ _, ("example.com", "/a/b.html")) Site.A)
   <= 100)%nat.
Proof.
  refine (proj1 (clean_filename_sanitised CleanData.latin1_letter
                   (λ _, ("example.com", "/a/b.html")) Site.A _)).
  vm_compute. discriminate.
Defined.

(** The file names of a few URLs. *)
Example clean_filename_with_path :
  CleanData.clean_filename CleanData.latin1_letter (λ _, ("example.com", "/a/b.html")) Site.A
  = "example_com_a_b_html".
Proof. reflexivity. Qed.

Example clean_filename_without_path :
  CleanData.clean_filename CleanData.latin1_letter (λ _, ("example.com:8080", "//")) Site.A
  = "example_com:8080".
Proof. reflexivity. Qed.

(** A letter with an accent is a word character and stays in the name. *)
Example clean_filename_keeps_accent :
  let e_acute := String (ascii_of_nat 233) "" in
  CleanData.clean_filename CleanData.latin1_letter
    (λ _, ("example.com", "/caf" +:+ e_acute +:+ ".html")) Site.A
  = "example_com_caf" +:+ e_acute +:+ "_html".
Proof. vm_compute. reflexivity. Qed.

Example strip_slashes : CleanData.strip "/" "//a/b//" = "a/b".
Proof. reflexivity. Qed.
